(** * httpclient: retrying HTTP client with per-status backoff and a
      size-bounded response body

    Shallow embedding of [src/httpclient/httpclient.go] (package
    [httpclient]): the configuration record and its options, the retry
    loop of [Client.Do], [shouldRetry], [getNextWait], and the
    [limitedReadCloser] returned by [Client.LimitedReader].  Two more
    versions of [Do] are embedded beside it: the one of the earlier
    package [src/httclient/httpclient.go] (module [Httclient]) and the
    second revision kept in the same file (module [V2]).

    Conventions.
    - Go's [int], [int64] and [time.Duration] are modelled as [Z]; the
      only arithmetic that can leave the 64-bit range is the doubling in
      [getNextWait], whose wrap-around is written out with [wrap64].
    - [map[int]BackoffStrategy] is a [gmap Z Z]; a nil map and an empty
      map read the same.
    - The transport ([c.Client.Do(req)]) and the [select] between the
      request context and the timer are effects of an abstract world,
      threaded explicitly; every run of [Do] also yields the list of the
      effects it performed, in order. *)

From Stdlib Require Import ZArith List Lia String.
From Stdlib.Strings Require Import Byte.
From stdpp Require Import base option list gmap.

Local Open Scope Z_scope.

(** ** Machine integers and durations *)

(** Two's-complement reduction of a mathematical integer to [int64]. *)
Definition wrap64 (z : Z) : Z := (z + 2 ^ 63) mod 2 ^ 64 - 2 ^ 63.

Definition Nanosecond : Z := 1.
Definition Millisecond : Z := 1000000.
Definition Second : Z := 1000000000.

(** ** Constants of the package *)

Definition defaultTimeout : Z := 15 * Second.
Definition defaultRetryMax : Z := 3.
Definition defaultRetryWaitMin : Z := 1 * Second.
Definition defaultRetryWaitMax : Z := 15 * Second.
Definition defaultMaxIdleConns : Z := 5.
Definition defaultMaxResponseSize : Z := 1024 * 1024.

(** [type BackoffStrategy int] with its two [iota] constants. *)
Abbreviation BackoffStrategy := Z (only parsing).
Definition ConstantBackoff : BackoffStrategy := 0.
Definition ExponentialBackoff : BackoffStrategy := 1.

(** The [net/http] status constants the package names. *)
Definition StatusTooManyRequests : Z := 429.
Definition StatusBadGateway : Z := 502.
Definition StatusServiceUnavailable : Z := 503.
Definition StatusGatewayTimeout : Z := 504.

(** ** Errors *)

(** Go [error] values: [io.EOF], the two context errors
    ([req.Context().Err()]), and any other error, named by its text. *)
Inductive error : Type :=
| EOF
| Canceled
| DeadlineExceeded
| ErrOther (msg : string).

(** ** The client and its options *)

(** [type Client struct]; [Timeout] is the embedded [http.Client]'s
    field and [MaxIdleConns] that of the [http.Transport] built in
    [New]. *)
Record Client : Type := mkClient {
  Timeout : Z;
  MaxIdleConns : Z;
  retryMax : Z;
  retryWaitMin : Z;
  retryWaitMax : Z;
  maxResponseSize : Z;
  backoffStrategy : gmap Z Z
}.

Definition Option : Type := Client -> Client.

Definition WithTimeout (timeout : Z) : Option := fun c =>
  mkClient timeout (MaxIdleConns c) (retryMax c) (retryWaitMin c)
           (retryWaitMax c) (maxResponseSize c) (backoffStrategy c).

Definition WithRetryMax (max : Z) : Option := fun c =>
  mkClient (Timeout c) (MaxIdleConns c) max (retryWaitMin c)
           (retryWaitMax c) (maxResponseSize c) (backoffStrategy c).

Definition WithRetryWaitMin (min : Z) : Option := fun c =>
  mkClient (Timeout c) (MaxIdleConns c) (retryMax c) min
           (retryWaitMax c) (maxResponseSize c) (backoffStrategy c).

Definition WithRetryWaitMax (max : Z) : Option := fun c =>
  mkClient (Timeout c) (MaxIdleConns c) (retryMax c) (retryWaitMin c)
           max (maxResponseSize c) (backoffStrategy c).

(** [WithMaxIdleConns] sets the field only when the type assertion of
    [c.Transport] to a pointer to [http.Transport] succeeds.  The
    transport [New] installs is the value of
    [otelhttp.NewTransport(transport)], an [otelhttp.Transport] around
    the [http.Transport], and no option of the package replaces it; so
    the assertion fails and the client is left as it is.  [MaxIdleConns]
    stays the pool size [New] gave the inner transport. *)
Definition WithMaxIdleConns (max : Z) : Option := fun c => c.

Definition WithMaxResponseSize (maxBytes : Z) : Option := fun c =>
  mkClient (Timeout c) (MaxIdleConns c) (retryMax c) (retryWaitMin c)
           (retryWaitMax c) maxBytes (backoffStrategy c).

(** [c.backoffStrategy[statusCode] = strategy] (after allocating the map
    when it is nil). *)
Definition WithBackoffStrategy (statusCode : Z) (strategy : BackoffStrategy)
  : Option := fun c =>
  mkClient (Timeout c) (MaxIdleConns c) (retryMax c) (retryWaitMin c)
           (retryWaitMax c) (maxResponseSize c)
           (<[statusCode := strategy]> (backoffStrategy c)).

(** The map literal of [New]. *)
Definition defaultBackoffStrategy : gmap Z Z :=
  <[StatusTooManyRequests := ExponentialBackoff]>
  (<[StatusServiceUnavailable := ConstantBackoff]>
  (<[StatusGatewayTimeout := ConstantBackoff]>
  (<[StatusBadGateway := ConstantBackoff]> ∅))).

Definition defaultClient : Client :=
  mkClient defaultTimeout defaultMaxIdleConns defaultRetryMax
           defaultRetryWaitMin defaultRetryWaitMax defaultMaxResponseSize
           defaultBackoffStrategy.

(** [New(opts ...Option)]: the defaults, then every option in order. *)
Definition New (opts : list Option) : Client :=
  foldl (fun c opt => opt c) defaultClient opts.

(** ** The retry decision and the next wait *)

(** [shouldRetry]: a [switch] over four fixed status codes. *)
Definition shouldRetry (statusCode : Z) : bool :=
  if statusCode =? StatusTooManyRequests then true
  else if statusCode =? StatusServiceUnavailable then true
  else if statusCode =? StatusGatewayTimeout then true
  else if statusCode =? StatusBadGateway then true
  else false.

(** [getNextWait]: the map lookup, then the [switch] on the strategy.
    [currentWait * 2] is an [int64] product. *)
Definition getNextWait (c : Client) (statusCode : Z) (currentWait : Z) : Z :=
  match backoffStrategy c !! statusCode with
  | None => retryWaitMin c
  | Some strategy =>
      if strategy =? ExponentialBackoff then
        let wait := wrap64 (currentWait * 2) in
        if wait >? retryWaitMax c then retryWaitMax c else wait
      else if strategy =? ConstantBackoff then retryWaitMin c
      else retryWaitMin c
  end.

(** ** Streams: [io.ReadCloser] and the bounded body *)

(** The [io.ReadCloser] interface over a stream state [B].  [Read b k]
    is [b.Read(p)] for a buffer with [len(p) = k]: the bytes placed in
    [p[0:n]], the error, and the stream afterwards.  [Close b] is
    [b.Close()]. *)
Class ReadCloser (B : Type) : Type := {
  Read : B -> nat -> list byte * option error * B;
  Close : B -> option error * B
}.

(** [limitedReadCloser{R: io.LimitReader(body, n), C: body}].  [R] is an
    [*io.LimitedReader] whose underlying reader is the very object [C]
    points to, so the model holds that object once ([lrc_body]) next to
    the limited reader's remaining count [R.N] ([lrc_N]). *)
Record limitedReadCloser (B : Type) : Type := mkLimited {
  lrc_N : Z;
  lrc_body : B
}.
Arguments mkLimited {B} _ _.
Arguments lrc_N {B} _.
Arguments lrc_body {B} _.

(** [Client.LimitedReader]. *)
Definition LimitedReader {B : Type} (c : Client) (body : B)
  : limitedReadCloser B :=
  mkLimited (maxResponseSize c) body.

Section BoundedBody.
Context {B : Type} `{ReadCloser B}.

(** [limitedReadCloser.Read] is [l.R.Read(p)], that is Go's
    [io.LimitedReader.Read] (pointer receiver):
    [if l.N <= 0 { return 0, EOF }];
    [if int64(len(p)) > l.N { p = p[0:l.N] }];
    [n, err = l.R.Read(p)]; [l.N -= int64(n)]. *)
Definition limitedReadCloser_Read (l : limitedReadCloser B) (len_p : nat)
  : list byte * option error * limitedReadCloser B :=
  if lrc_N l <=? 0 then ([], Some EOF, l)
  else
    let len_p' :=
      if Z.of_nat len_p >? lrc_N l then Z.to_nat (lrc_N l) else len_p in
    let '(bs, err, b') := Read (lrc_body l) len_p' in
    (bs, err, mkLimited (lrc_N l - Z.of_nat (length bs)) b').

(** [limitedReadCloser.Close] is [l.C.Close()]. *)
Definition limitedReadCloser_Close (l : limitedReadCloser B)
  : option error * limitedReadCloser B :=
  let '(err, b') := Close (lrc_body l) in
  (err, mkLimited (lrc_N l) b').

#[export] Instance limitedReadCloser_ReadCloser
  : ReadCloser (limitedReadCloser B) :=
  {| Read := limitedReadCloser_Read; Close := limitedReadCloser_Close |}.
End BoundedBody.

(** ** Callers of a stream *)

Section Callers.
Context {B : Type} `{ReadCloser B}.

(** A caller that drains a stream: [Read] into a buffer of [len_p]
    bytes until a call returns an error or the end of the stream, at
    most [fuel] calls; the bytes gathered, the signal that ended the
    loop ([None] when the fuel ran out first), and the stream. *)
Fixpoint read_until_error (fuel : nat) (len_p : nat) (b : B)
  : list byte * option error * B :=
  match fuel with
  | O => ([], None, b)
  | S fuel' =>
      let '(bs, err, b1) := Read b len_p in
      match err with
      | Some e => (bs, Some e, b1)
      | None =>
          let '(bs', err', b2) := read_until_error fuel' len_p b1 in
          (bs ++ bs', err', b2)
      end
  end.

(** A caller that calls [Close] [k] times in a row: the results of the
    calls, in order, and the stream. *)
Fixpoint close_times (k : nat) (b : B) : list (option error) * B :=
  match k with
  | O => ([], b)
  | S k' =>
      let '(err, b1) := Close b in
      let '(errs, b2) := close_times k' b1 in
      (err :: errs, b2)
  end.

(** The contract of [io.Reader]: [Read(p)] returns at most [len(p)]
    bytes. *)
Definition reads_within_buffer : Prop :=
  forall (b : B) (k : nat), (length (Read b k).1.1 <= k)%nat.
End Callers.

(** ** Responses and the world *)

Record Response (T : Type) : Type := mkResponse {
  StatusCode : Z;
  Body : T
}.
Arguments mkResponse {T} _ _.
Arguments StatusCode {T} _.
Arguments Body {T} _.

(** The dynamic type behind [resp.Body] inside [Do]: the stream the
    transport delivered, or the [*limitedReadCloser] put in its place. *)
Inductive RespBody (B : Type) : Type :=
| Upstream (b : B)
| Limited (l : limitedReadCloser B).
Arguments Upstream {B} _.
Arguments Limited {B} _.

(** The collaborators of [Do].  [http_Do w] is [c.Client.Do(req)]: a
    response, or an error and no response.  [select_wait d w] is the
    [select] between [req.Context().Done()] and [time.After(d)]:
    [Some e] when the context case is taken ([e] is
    [req.Context().Err()]), [None] when the timer fires. *)
Class World (W B : Type) : Type := {
  http_Do : W -> (Response B + error) * W;
  select_wait : Z -> W -> option error * W
}.

(** What a run of [Do] did, in order. *)
Inductive event (B : Type) : Type :=
| EvRequest (i : Z) (out : Response B + error)
| EvBodyClose (i : Z)
| EvWait (d : Z) (fired : option error).
Arguments EvRequest {B} _ _.
Arguments EvBodyClose {B} _.
Arguments EvWait {B} _ _.

(** How one pass through the loop body ends: a [return], or a
    [continue] with the variables [resp], [err] and [wait] as they then
    stand. *)
Inductive step (B : Type) : Type :=
| Return (resp : option (Response (RespBody B))) (err : option error)
| Continue (resp : option (Response (RespBody B))) (err : option error)
           (wait : Z).
Arguments Return {B} _ _.
Arguments Continue {B} _ _ _.

Section Do.
Context {W B : Type} `{ReadCloser B} `{World W B}.

(** The accepting exit: [resp.Body = c.LimitedReader(resp.Body)];
    [return resp, nil]. *)
Definition accept (c : Client) (resp : Response B)
  : option (Response (RespBody B)) :=
  Some (mkResponse (StatusCode resp)
                   (Limited (LimitedReader c (Body resp)))).

(** The body of the [for] loop at counter [i] with the variable
    [wait]. *)
Definition Do_body (c : Client) (i wait : Z) (w : W)
  : step B * W * list (event B) :=
  match http_Do w with
  | (inr err, w1) =>
      if i =? retryMax c then
        (Return None (Some err), w1, [EvRequest i (inr err)])
      else
        match select_wait wait w1 with
        | (Some cerr, w2) =>
            (Return None (Some cerr), w2,
             [EvRequest i (inr err); EvWait wait (Some cerr)])
        | (None, w2) =>
            (Continue None (Some err) (getNextWait c 0 wait), w2,
             [EvRequest i (inr err); EvWait wait None])
        end
  | (inl resp, w1) =>
      if shouldRetry (StatusCode resp) && (i <? retryMax c) then
        let closed :=
          mkResponse (StatusCode resp)
                     (Upstream (snd (Close (Body resp)))) in
        match select_wait wait w1 with
        | (Some cerr, w2) =>
            (Return None (Some cerr), w2,
             [EvRequest i (inl resp); EvBodyClose i;
              EvWait wait (Some cerr)])
        | (None, w2) =>
            (Continue (Some closed) None
                      (getNextWait c (StatusCode resp) wait), w2,
             [EvRequest i (inl resp); EvBodyClose i; EvWait wait None])
        end
      else
        (Return (accept c resp) None, w1, [EvRequest i (inl resp)])
  end.

(** [for i := 0; i <= c.retryMax; i++ { ... }; return resp, err] with
    [n] passes still to go: the loop runs its body for
    [i = 0, ..., retryMax] unless the body returns, and falls through
    to the final [return resp, err] otherwise. *)
Fixpoint Do_loop (c : Client) (n : nat) (i wait : Z)
         (resp : option (Response (RespBody B))) (err : option error)
         (w : W)
  : option (Response (RespBody B)) * option error * W * list (event B) :=
  match n with
  | O => (resp, err, w, [])
  | S n' =>
      match Do_body c i wait w with
      | (Return resp' err', w', evs) => (resp', err', w', evs)
      | (Continue resp' err' wait', w', evs) =>
          let '(r, e, w'', evs') :=
            Do_loop c n' (i + 1) wait' resp' err' w' in
          (r, e, w'', evs ++ evs')
      end
  end.

(** [Client.Do]. *)
Definition Do (c : Client) (w : W)
  : option (Response (RespBody B)) * option error * W * list (event B) :=
  Do_loop c (Z.to_nat (retryMax c + 1)) 0 (retryWaitMin c) None None w.
End Do.

(** ** One pass of the loop, as a relation *)

Section BodySpec.
Context {W B : Type} `{ReadCloser B} `{World W B}.

(** The six ways through the loop body. *)
Inductive body_spec (c : Client) (i wait : Z) (w : W)
  : step B -> W -> list (event B) -> Prop :=
| BS_err_final e w1 :
    http_Do w = (inr e, w1) -> i = retryMax c ->
    body_spec c i wait w (Return None (Some e)) w1 [EvRequest i (inr e)]
| BS_err_cancel e w1 ce w2 :
    http_Do w = (inr e, w1) -> i <> retryMax c ->
    select_wait wait w1 = (Some ce, w2) ->
    body_spec c i wait w (Return None (Some ce)) w2
              [EvRequest i (inr e); EvWait wait (Some ce)]
| BS_err_retry e w1 w2 :
    http_Do w = (inr e, w1) -> i <> retryMax c ->
    select_wait wait w1 = (None, w2) ->
    body_spec c i wait w
              (Continue None (Some e) (getNextWait c 0 wait)) w2
              [EvRequest i (inr e); EvWait wait None]
| BS_resp_cancel r w1 ce w2 :
    http_Do w = (inl r, w1) ->
    shouldRetry (StatusCode r) = true -> i < retryMax c ->
    select_wait wait w1 = (Some ce, w2) ->
    body_spec c i wait w (Return None (Some ce)) w2
              [EvRequest i (inl r); EvBodyClose i; EvWait wait (Some ce)]
| BS_resp_retry r w1 w2 :
    http_Do w = (inl r, w1) ->
    shouldRetry (StatusCode r) = true -> i < retryMax c ->
    select_wait wait w1 = (None, w2) ->
    body_spec c i wait w
              (Continue (Some (mkResponse (StatusCode r)
                                 (Upstream (snd (Close (Body r))))))
                        None (getNextWait c (StatusCode r) wait)) w2
              [EvRequest i (inl r); EvBodyClose i; EvWait wait None]
| BS_accept r w1 :
    http_Do w = (inl r, w1) ->
    shouldRetry (StatusCode r) && (i <? retryMax c) = false ->
    body_spec c i wait w (Return (accept c r) None) w1
              [EvRequest i (inl r)].
End BodySpec.

(** ** Reading a log *)

(** The outcomes of the requests of a log, in order. *)
Definition requests {B : Type} (log : list (event B))
  : list (Response B + error) :=
  omap (fun ev => match ev with EvRequest _ out => Some out | _ => None end)
       log.

(** The durations of the backoff waits of a log, in order. *)
Definition waits {B : Type} (log : list (event B)) : list Z :=
  omap (fun ev => match ev with EvWait d _ => Some d | _ => None end) log.

(** How many requests a log holds. *)
Definition attempts {B : Type} (log : list (event B)) : nat :=
  length (requests log).

(** The key [Do] hands to [getNextWait] after an attempt: the status
    code of the response, or the literal [0] after a transport error. *)
Definition wait_key {B : Type} (out : Response B + error) : Z :=
  match out with
  | inl resp => StatusCode resp
  | inr _ => 0
  end.

(** [follows_schedule c wait outs ds]: the waits [ds] are those of a
    loop that starts with the variable [wait] and whose attempts end as
    [outs]: each wait lasts the current value of the variable, which is
    then replaced by [getNextWait] at the key of the attempt before
    it. *)
Fixpoint follows_schedule {B : Type} (c : Client) (wait : Z)
         (outs : list (Response B + error)) (ds : list Z) {struct ds}
  : Prop :=
  match ds with
  | [] => True
  | d :: ds' =>
      d = wait /\
      match outs with
      | [] => ds' = []
      | out :: outs' =>
          follows_schedule c (getNextWait c (wait_key out) wait) outs' ds'
      end
  end.

(** The counters of the requests of a log, in order. *)
Definition request_indices {B : Type} (log : list (event B)) : list Z :=
  omap (fun ev => match ev with EvRequest i _ => Some i | _ => None end) log.

(** The responses a log shows as received, in order. *)
Definition responses {B : Type} (log : list (event B))
  : list (Response B) :=
  omap (fun ev => match ev with
                  | EvRequest _ (inl r) => Some r
                  | _ => None
                  end) log.

(** The counters of the attempts whose response body a log shows as
    closed, in order. *)
Definition closes {B : Type} (log : list (event B)) : list Z :=
  omap (fun ev => match ev with EvBodyClose i => Some i | _ => None end) log.

(** A log with the durations of its waits blanked. *)
Definition untimed {B : Type} (log : list (event B)) : list (event B) :=
  map (fun ev => match ev with
                 | EvWait _ fired => EvWait 0 fired
                 | _ => ev
                 end) log.

(** The options the package exports. *)
Inductive package_option : Option -> Prop :=
| PO_Timeout t : package_option (WithTimeout t)
| PO_RetryMax n : package_option (WithRetryMax n)
| PO_RetryWaitMin d : package_option (WithRetryWaitMin d)
| PO_RetryWaitMax d : package_option (WithRetryWaitMax d)
| PO_MaxIdleConns n : package_option (WithMaxIdleConns n)
| PO_MaxResponseSize n : package_option (WithMaxResponseSize n)
| PO_BackoffStrategy code s : package_option (WithBackoffStrategy code s).

(** Durations whose double still fits [int64]. *)
Definition doubles_safely (d : Z) : Prop := 0 <= d < 2 ^ 62.

(** The status codes [shouldRetry] names. *)
Definition retriable_code (statusCode : Z) : Prop :=
  statusCode = 429 \/ statusCode = 502 \/ statusCode = 503 \/
  statusCode = 504.

(** ** The earlier package [httclient]

    Shallow embedding of [src/httclient/httpclient.go]: the client
    without a backoff map and without a bounded body, which doubles the
    wait after every retry. *)

Module Httclient.

Record Client : Type := mkClient {
  Timeout : Z;
  MaxIdleConns : Z;
  retryMax : Z;
  retryWaitMin : Z;
  retryWaitMax : Z
}.

Definition Option : Type := Client -> Client.

Definition WithTimeout (timeout : Z) : Option := fun c =>
  mkClient timeout (MaxIdleConns c) (retryMax c) (retryWaitMin c)
           (retryWaitMax c).

Definition WithRetryMax (max : Z) : Option := fun c =>
  mkClient (Timeout c) (MaxIdleConns c) max (retryWaitMin c)
           (retryWaitMax c).

Definition WithRetryWaitMin (min : Z) : Option := fun c =>
  mkClient (Timeout c) (MaxIdleConns c) (retryMax c) min (retryWaitMax c).

Definition WithRetryWaitMax (max : Z) : Option := fun c =>
  mkClient (Timeout c) (MaxIdleConns c) (retryMax c) (retryWaitMin c) max.

(** Here the client's transport is the [http.Transport] itself, so the
    (unchecked) type assertion holds and the field is set. *)
Definition WithMaxIdleConns (max : Z) : Option := fun c =>
  mkClient (Timeout c) max (retryMax c) (retryWaitMin c) (retryWaitMax c).

Definition New (opts : list Option) : Client :=
  foldl (fun c opt => opt c)
        (mkClient defaultTimeout defaultMaxIdleConns defaultRetryMax
                  defaultRetryWaitMin defaultRetryWaitMax)
        opts.

(** [shouldRetry]: a disjunction of four comparisons. *)
Definition shouldRetry (statusCode : Z) : bool :=
  (statusCode =? StatusTooManyRequests)
  || (statusCode =? StatusServiceUnavailable)
  || (statusCode =? StatusGatewayTimeout)
  || (statusCode =? StatusBadGateway).

(** [wait *= 2; if wait > c.retryWaitMax { wait = c.retryWaitMax }]. *)
Definition double_wait (c : Client) (wait : Z) : Z :=
  let wait := wrap64 (wait * 2) in
  if wait >? retryWaitMax c then retryWaitMax c else wait.

Inductive step (B : Type) : Type :=
| Return (resp : option (Response B)) (err : option error)
| Continue (resp : option (Response B)) (err : option error) (wait : Z).
Arguments Return {B} _ _.
Arguments Continue {B} _ _ _.

Section Do.
Context {W B : Type} `{ReadCloser B} `{World W B}.

Definition Do_body (c : Client) (i wait : Z) (w : W)
  : step B * W * list (event B) :=
  match http_Do w with
  | (inr err, w1) =>
      if i =? retryMax c then
        (Return None (Some err), w1, [EvRequest i (inr err)])
      else
        match select_wait wait w1 with
        | (Some cerr, w2) =>
            (Return None (Some cerr), w2,
             [EvRequest i (inr err); EvWait wait (Some cerr)])
        | (None, w2) =>
            (Continue None (Some err) (double_wait c wait), w2,
             [EvRequest i (inr err); EvWait wait None])
        end
  | (inl resp, w1) =>
      if shouldRetry (StatusCode resp) && (i <? retryMax c) then
        let closed :=
          mkResponse (StatusCode resp) (snd (Close (Body resp))) in
        match select_wait wait w1 with
        | (Some cerr, w2) =>
            (Return None (Some cerr), w2,
             [EvRequest i (inl resp); EvBodyClose i;
              EvWait wait (Some cerr)])
        | (None, w2) =>
            (Continue (Some closed) None (double_wait c wait), w2,
             [EvRequest i (inl resp); EvBodyClose i; EvWait wait None])
        end
      else
        (Return (Some resp) None, w1, [EvRequest i (inl resp)])
  end.

Fixpoint Do_loop (c : Client) (n : nat) (i wait : Z)
         (resp : option (Response B)) (err : option error) (w : W)
  : option (Response B) * option error * W * list (event B) :=
  match n with
  | O => (resp, err, w, [])
  | S n' =>
      match Do_body c i wait w with
      | (Return resp' err', w', evs) => (resp', err', w', evs)
      | (Continue resp' err' wait', w', evs) =>
          let '(r, e, w'', evs') :=
            Do_loop c n' (i + 1) wait' resp' err' w' in
          (r, e, w'', evs ++ evs')
      end
  end.

Definition Do (c : Client) (w : W)
  : option (Response B) * option error * W * list (event B) :=
  Do_loop c (Z.to_nat (retryMax c + 1)) 0 (retryWaitMin c) None None w.
End Do.

End Httclient.

(** ** The second revision of [Do]

    The text of [src/httpclient/httpclient.go] after its separator holds
    a second revision of the package.  Its client, options,
    [getNextWait] and [LimitedReader] are those above; its [Do] differs
    and is embedded here.  The tracer calls wrap the request's context
    and are left out: the context of the [select] is done exactly when
    the request's is. *)

Module V2.

(** [resp, err := c.Client.Do(req)] as this revision reads it: [resp]
    is inspected before [err], so both are kept.  A transport failure
    gives a nil response; a response together with an error is what
    [net/http] returns when [CheckRedirect] fails. *)
Class World (W B : Type) : Type := {
  http_Do : W -> option (Response B) * option error * W;
  select_wait : Z -> W -> option error * W
}.

Inductive event (B : Type) : Type :=
| EvRequest (resp : option (Response B)) (err : option error)
| EvWait (d : Z) (fired : option error).
Arguments EvRequest {B} _ _.
Arguments EvWait {B} _ _.

(** How a call ends: a run-time panic (nil pointer dereference), or a
    [return]. *)
Inductive outcome (B : Type) : Type :=
| Panic
| Returned (resp : option (Response B)) (err : option error).
Arguments Panic {B}.
Arguments Returned {B} _ _.

Inductive step (B : Type) : Type :=
| Panicked
| Break
| Return (resp : option (Response B)) (err : option error)
| Continue (wait : Z).
Arguments Panicked {B}.
Arguments Break {B}.
Arguments Return {B} _ _.
Arguments Continue {B} _.

Section Do.
Context {W B : Type} `{World W B}.

(** The body of [for i := range c.retryMax].  [resp.StatusCode] is
    read first, which panics on a nil [resp]. *)
Definition Do_body (c : Client) (i wait : Z) (w : W)
  : step B * W * list (event B) :=
  let '(resp, err, w1) := http_Do w in
  match resp with
  | None => (Panicked, w1, [EvRequest resp err])
  | Some r =>
      match err with
      | None =>
          match backoffStrategy c !! StatusCode r with
          | None => (Break, w1, [EvRequest resp err])
          | Some strategy =>
              let wait' :=
                if strategy =? ConstantBackoff then retryWaitMin c
                else if strategy =? ExponentialBackoff then
                  let doubled := wrap64 (wait * 2) in
                  if doubled >? retryWaitMax c then retryWaitMax c
                  else doubled
                else wait in
              (Continue wait', w1, [EvRequest resp err])
          end
      | Some e =>
          if i =? retryMax c then
            (Return None (Some e), w1, [EvRequest resp err])
          else
            match select_wait wait w1 with
            | (Some cerr, w2) =>
                (Return None (Some cerr), w2,
                 [EvRequest resp err; EvWait wait (Some cerr)])
            | (None, w2) =>
                (Continue (getNextWait c (StatusCode r) wait), w2,
                 [EvRequest resp err; EvWait wait None])
            end
      end
  end.

(** The statement after the loop: [return c.Client.Do(req)]. *)
Definition Do_final (w : W) : outcome B * W * list (event B) :=
  let '(resp, err, w1) := http_Do w in
  (Returned resp err, w1, [EvRequest resp err]).

(** The loop with [n] passes to go, then the final statement. *)
Fixpoint Do_loop (c : Client) (n : nat) (i wait : Z) (w : W)
  : outcome B * W * list (event B) :=
  match n with
  | O => Do_final w
  | S n' =>
      match Do_body c i wait w with
      | (Panicked, w', evs) => (Panic, w', evs)
      | (Return resp err, w', evs) => (Returned resp err, w', evs)
      | (Break, w', evs) =>
          let '(out, w'', evs') := Do_final w' in (out, w'', evs ++ evs')
      | (Continue wait', w', evs) =>
          let '(out, w'', evs') := Do_loop c n' (i + 1) wait' w' in
          (out, w'', evs ++ evs')
      end
  end.

(** [Do]: [range c.retryMax] runs the body for
    [i = 0, ..., retryMax - 1], and not at all when [retryMax <= 0]. *)
Definition Do (c : Client) (w : W) : outcome B * W * list (event B) :=
  Do_loop c (Z.to_nat (retryMax c)) 0 (retryWaitMin c) w.
End Do.

End V2.

(** A client of the later package whose map doubles the wait after
    every retry, as the earlier package always does: the key [0] and
    the four codes [shouldRetry] names are set to [ExponentialBackoff]. *)
Definition all_exponential (c : Client) : Prop :=
  backoffStrategy c !! 0 = Some ExponentialBackoff /\
  forall code, retriable_code code ->
               backoffStrategy c !! code = Some ExponentialBackoff.

(** The same retry settings in both packages. *)
Definition same_retry_settings (c0 : Httclient.Client) (c : Client) : Prop :=
  Httclient.retryMax c0 = retryMax c /\
  Httclient.retryWaitMin c0 = retryWaitMin c /\
  Httclient.retryWaitMax c0 = retryWaitMax c.

(** A response with its body behind the client's bounded reader. *)
Definition bounded {B : Type} (c : Client) (resp : Response B)
  : Response (RespBody B) :=
  mkResponse (StatusCode resp) (Limited (LimitedReader c (Body resp))).

(** ** Concrete collaborators, for running the model *)

(** An in-memory response body: [mb_data] are the bytes not yet
    delivered; one [Read] delivers at most [mb_chunk] of them; the
    [Read] that delivers the last byte also returns [mb_fault] (a broken
    connection) when that is set; [mb_closes] counts the calls of
    [Close], and every call after the first reports an error, as a file
    or a socket does. *)
Record memBody : Type := mkMemBody {
  mb_data : list byte;
  mb_chunk : nat;
  mb_fault : option error;
  mb_closes : nat
}.

Definition memBody_Read (b : memBody) (len_p : nat)
  : list byte * option error * memBody :=
  match mb_data b with
  | [] => ([], Some (default EOF (mb_fault b)), b)
  | _ :: _ =>
      let n := Nat.min len_p (Nat.min (mb_chunk b) (length (mb_data b))) in
      (take n (mb_data b),
       if Nat.eqb n (length (mb_data b)) then mb_fault b else None,
       mkMemBody (drop n (mb_data b)) (mb_chunk b) (mb_fault b)
                 (mb_closes b))
  end.

Definition memBody_Close (b : memBody) : option error * memBody :=
  (if Nat.eqb (mb_closes b) 0 then None
   else Some (ErrOther "already closed"),
   mkMemBody (mb_data b) (mb_chunk b) (mb_fault b) (S (mb_closes b))).

#[export] Instance memBody_ReadCloser : ReadCloser memBody :=
  {| Read := memBody_Read; Close := memBody_Close |}.

(** A scripted world: the transport answers with the next entry of
    [sw_replies] (a refused connection once the script is over), and the
    [n]-th [select] ends as the next entry of [sw_ctx] says (the timer
    fires once that script is over). *)
Record scriptWorld : Type := mkScript {
  sw_replies : list (Response memBody + error);
  sw_ctx : list (option error)
}.

Definition refused : error := ErrOther "connection refused".

Definition script_http_Do (w : scriptWorld)
  : (Response memBody + error) * scriptWorld :=
  match sw_replies w with
  | [] => (inr refused, w)
  | out :: rest => (out, mkScript rest (sw_ctx w))
  end.

Definition script_select_wait (d : Z) (w : scriptWorld)
  : option error * scriptWorld :=
  match sw_ctx w with
  | [] => (None, w)
  | fired :: rest => (fired, mkScript (sw_replies w) rest)
  end.

#[export] Instance scriptWorld_World : World scriptWorld memBody :=
  {| http_Do := script_http_Do; select_wait := script_select_wait |}.

(** A body of [n] zero bytes read in one piece, and a response with it. *)
Definition zeros (n : nat) : memBody :=
  mkMemBody (replicate n x00%byte) n None 0.

Definition answer (code : Z) (n : nat) : Response memBody :=
  mkResponse code (zeros n).

Definition reply (code : Z) (n : nat) : Response memBody + error :=
  inl (answer code n).

(** A scripted world for the second revision. *)
Record scriptWorld2 : Type := mkScript2 {
  sw2_replies : list (option (Response memBody) * option error);
  sw2_ctx : list (option error)
}.

Definition script2_http_Do (w : scriptWorld2)
  : option (Response memBody) * option error * scriptWorld2 :=
  match sw2_replies w with
  | [] => (None, Some refused, w)
  | (resp, err) :: rest => (resp, err, mkScript2 rest (sw2_ctx w))
  end.

Definition script2_select_wait (d : Z) (w : scriptWorld2)
  : option error * scriptWorld2 :=
  match sw2_ctx w with
  | [] => (None, w)
  | fired :: rest => (fired, mkScript2 (sw2_replies w) rest)
  end.

#[export] Instance scriptWorld2_World : V2.World scriptWorld2 memBody :=
  {| V2.http_Do := script2_http_Do; V2.select_wait := script2_select_wait |}.

(** ** Scenarios *)

(** The example of the spec: [retryWaitMin = 1s], [retryWaitMax = 10s],
    and an upstream that keeps answering 429. *)
Definition client_1s_10s : Client :=
  New [WithRetryWaitMax (10 * Second); WithRetryMax 6].

Definition always_429 : scriptWorld :=
  mkScript (replicate 7 (reply 429 0)) [].

(** A client with a strategy configured for the status code 500. *)
Definition client_with_500 : Client :=
  New [WithBackoffStrategy 500 ConstantBackoff].

(** A body whose connection breaks after three bytes. *)
Definition reset : error := ErrOther "connection reset by peer".

Definition broken_body : memBody :=
  mkMemBody [x01%byte; x02%byte; x03%byte] 8 (Some reset) 0.

(** A body of ten distinct bytes. *)
Definition ten_bytes : list byte :=
  [x00; x01; x02; x03; x04; x05; x06; x07; x08; x09]%byte.

(** A 503, then a refused connection, then a 200. *)
Definition flaky : scriptWorld :=
  mkScript [reply 503 4; inr refused; reply 200 4] [].

(** The later client set to double the wait after every retry, and the
    earlier client with its defaults. *)
Definition client_all_exponential : Client :=
  New [WithBackoffStrategy 0 ExponentialBackoff;
       WithBackoffStrategy 502 ExponentialBackoff;
       WithBackoffStrategy 503 ExponentialBackoff;
       WithBackoffStrategy 504 ExponentialBackoff].

(** A world of the second revision: a 200, then a 404. *)
Definition answers_200_404 : scriptWorld2 :=
  mkScript2 [(Some (answer 200 4), None); (Some (answer 404 4), None)] [].

(** A world of the second revision that answers 503 three times, then
    200. *)
Definition answers_503s : scriptWorld2 :=
  mkScript2 [(Some (answer 503 4), None); (Some (answer 503 4), None);
             (Some (answer 503 4), None); (Some (answer 503 4), None)] [].

(** The key [0] mapped to [ExponentialBackoff]. *)
Definition client_sentinel_exponential : Client :=
  New [WithBackoffStrategy 0 ExponentialBackoff].

(** A 429, then a refused connection, then a 200. *)
Definition after_429_refused : scriptWorld :=
  mkScript [reply 429 4; inr refused; reply 200 4] [].

(** * Properties *)

(** ** Sanity runs of the model *)

(** The defaults: three 503 answers and then a 200 give four requests,
    three closed bodies and three waits of one second. *)
Example Do_default_503_then_200 :
  let w := mkScript [reply 503 4; reply 503 4; reply 503 4; reply 200 4] [] in
  let '(resp, err, _, log) := Do (New []) w in
  (StatusCode <$> resp) = Some 200 /\ err = None /\
  attempts log = 4%nat /\ waits log = [Second; Second; Second].
Proof. vm_compute. repeat split; reflexivity. Qed.

Example shouldRetry_values :
  shouldRetry 429 = true /\ shouldRetry 502 = true /\
  shouldRetry 503 = true /\ shouldRetry 504 = true /\
  shouldRetry 500 = false /\ shouldRetry 200 = false.
Proof. repeat split; reflexivity. Qed.

(** ** One pass of the loop *)

(** Membership in the short logs of one pass. *)
Ltac in_log H :=
  repeat (rewrite elem_of_cons in H; destruct H as [H | H]);
  try (apply elem_of_nil in H; destruct H);
  try discriminate H; try (injection H as ? ?; subst).

Section DoFacts.
Context {W B : Type} `{ReadCloser B} `{World W B}.

Lemma Do_body_spec (c : Client) (i wait : Z) (w : W) :
  body_spec c i wait w (Do_body c i wait w).1.1 (Do_body c i wait w).1.2
            (Do_body c i wait w).2.
Proof.
  unfold Do_body.
  destruct (http_Do w) as [[r | e] w1] eqn:Hdo.
  - destruct (shouldRetry (StatusCode r) && (i <? retryMax c)) eqn:Hre.
    + apply andb_true_iff in Hre as [Hs Hi]. apply Z.ltb_lt in Hi.
      destruct (select_wait wait w1) as [[ce |] w2] eqn:Hsel; simpl.
      * eapply BS_resp_cancel; eauto.
      * eapply BS_resp_retry; eauto.
    + simpl. eapply BS_accept; eauto.
  - destruct (i =? retryMax c) eqn:Hi.
    + apply Z.eqb_eq in Hi. simpl. eapply BS_err_final; eauto.
    + apply Z.eqb_neq in Hi.
      destruct (select_wait wait w1) as [[ce |] w2] eqn:Hsel; simpl.
      * eapply BS_err_cancel; eauto.
      * eapply BS_err_retry; eauto.
Qed.

Lemma Do_loop_S (c : Client) (n : nat) (i wait : Z) resp err (w : W) :
  Do_loop c (S n) i wait resp err w =
  match Do_body c i wait w with
  | (Return resp' err', w', evs) => (resp', err', w', evs)
  | (Continue resp' err' wait', w', evs) =>
      let '(r, e, w'', evs') :=
        Do_loop c n (i + 1) wait' resp' err' w' in
      (r, e, w'', evs ++ evs')
  end.
Proof. reflexivity. Qed.

(** Unfolding one pass, with the body described by [body_spec]. *)
Lemma Do_loop_inv (c : Client) (n : nat) (i wait : Z) resp err (w : W)
      r e w' log :
  Do_loop c (S n) i wait resp err w = (r, e, w', log) ->
  (exists evs, body_spec c i wait w (Return r e) w' evs /\ log = evs) \/
  (exists resp1 err1 wait1 w1 evs log1,
      body_spec c i wait w (Continue resp1 err1 wait1) w1 evs /\
      Do_loop c n (i + 1) wait1 resp1 err1 w1 = (r, e, w', log1) /\
      log = evs ++ log1).
Proof.
  rewrite Do_loop_S. intros Hrun.
  pose proof (Do_body_spec c i wait w) as Hb.
  destruct (Do_body c i wait w) as [[[r1 e1 | r1 e1 wait1] w1] evs];
    simpl in Hb.
  - left. inversion Hrun; subst. eauto.
  - right.
    destruct (Do_loop c n (i + 1) wait1 r1 e1 w1) as [[[r2 e2] w2] log1]
      eqn:Hrest.
    inversion Hrun; subst. eauto 10.
Qed.

Lemma requests_app (l1 l2 : list (event B)) :
  requests (l1 ++ l2) = requests l1 ++ requests l2.
Proof. unfold requests. apply omap_app. Qed.

Lemma waits_app (l1 l2 : list (event B)) :
  waits (l1 ++ l2) = waits l1 ++ waits l2.
Proof. unfold waits. apply omap_app. Qed.

Lemma attempts_app (l1 l2 : list (event B)) :
  attempts (l1 ++ l2) = (attempts l1 + attempts l2)%nat.
Proof. unfold attempts. rewrite requests_app. apply length_app. Qed.


(** ** The final attempt *)

Lemma Do_loop_final_response (c : Client) (n : nat) :
  forall (i wait : Z) resp err (w : W) r e w' log x,
    i + Z.of_nat n = retryMax c + 1 ->
    Do_loop c n i wait resp err w = (r, e, w', log) ->
    EvRequest (retryMax c) (inl x) ∈ log ->
    r = accept c x /\ e = None /\
    exists pre, log = pre ++ [EvRequest (retryMax c) (inl x)].
Proof.
  induction n as [| n IH]; intros i wait resp err w r e w' log x Hn Hrun Hin.
  - simpl in Hrun. inversion Hrun; subst. apply elem_of_nil in Hin. destruct Hin.
  - apply Do_loop_inv in Hrun
      as [(evs & Hb & ->) | (r1 & e1 & wt1 & w1 & evs & log1 & Hb & Hrest & ->)].
    + inversion Hb; subst; in_log Hin; try lia.
      repeat split; try reflexivity. exists []. reflexivity.
    + apply elem_of_app in Hin as [Hin | Hin].
      * inversion Hb; subst; in_log Hin; lia.
      * destruct (IH (i + 1) wt1 r1 e1 w1 r e w' log1 x) as (? & ? & pre & ->);
          [lia | assumption | assumption |].
        repeat split; try assumption.
        exists (evs ++ pre). rewrite app_assoc. reflexivity.
Qed.

(** ** Cancellation during a wait *)

Lemma Do_loop_cancelled (c : Client) (n : nat) :
  forall (i wait : Z) resp err (w : W) r e w' log d ce,
    Do_loop c n i wait resp err w = (r, e, w', log) ->
    EvWait d (Some ce) ∈ log ->
    r = None /\ e = Some ce /\ exists pre, log = pre ++ [EvWait d (Some ce)].
Proof.
  induction n as [| n IH]; intros i wait resp err w r e w' log d ce Hrun Hin.
  - simpl in Hrun. inversion Hrun; subst. apply elem_of_nil in Hin. destruct Hin.
  - apply Do_loop_inv in Hrun
      as [(evs & Hb & ->) | (r1 & e1 & wt1 & w1 & evs & log1 & Hb & Hrest & ->)].
    + inversion Hb; subst; in_log Hin.
      * repeat split; try reflexivity. exists [EvRequest i (inr e0)]. reflexivity.
      * repeat split; try reflexivity.
        exists [EvRequest i (inl r0); EvBodyClose i]. reflexivity.
    + apply elem_of_app in Hin as [Hin | Hin].
      * inversion Hb; subst; in_log Hin.
      * destruct (IH (i + 1) wt1 r1 e1 w1 r e w' log1 d ce) as (? & ? & pre & ->);
          [assumption | assumption |].
        repeat split; try assumption.
        exists (evs ++ pre). rewrite app_assoc. reflexivity.
Qed.

(** ** Persistent transport failure *)

Lemma Do_loop_all_errors (c : Client) (n : nat) :
  forall (i wait : Z) resp err (w : W) r e w' log,
    i + Z.of_nat n = retryMax c + 1 -> (0 < n)%nat ->
    Do_loop c n i wait resp err w = (r, e, w', log) ->
    (forall j out, EvRequest j out ∈ log -> exists x, out = inr x) ->
    (forall d fired, EvWait d fired ∈ log -> fired = None) ->
    attempts log = n /\ r = None /\
    exists x, e = Some x /\ last log = Some (EvRequest (retryMax c) (inr x)).
Proof.
  induction n as [| n IH];
    intros i wait resp err w r e w' log Hn Hpos Hrun Hreq Hwait; [lia |].
  apply Do_loop_inv in Hrun
    as [(evs & Hb & ->) | (r1 & e1 & wt1 & w1 & evs & log1 & Hb & Hrest & ->)].
  - inversion Hb; subst.
    + assert (n = 0)%nat as -> by lia.
      repeat split; try reflexivity. exists e0. split; reflexivity.
    + specialize (Hwait wait (Some ce)). discriminate Hwait.
      rewrite !elem_of_cons. auto.
    + destruct (Hreq i (inl r0)) as [x Hx]; [| discriminate Hx].
      rewrite !elem_of_cons. auto.
    + destruct (Hreq i (inl r0)) as [x Hx]; [| discriminate Hx].
      rewrite !elem_of_cons. auto.
  - inversion Hb; subst.
    + destruct (IH (i + 1) (getNextWait c 0 wait) None (Some e0) w1 r e w' log1)
        as (Hat & -> & x & -> & Hlast); try assumption; try lia.
      * intros j out Hj. apply (Hreq j out). apply elem_of_app. auto.
      * intros d fired Hd. apply (Hwait d fired). apply elem_of_app. auto.
      * repeat split.
        -- rewrite attempts_app, Hat. reflexivity.
        -- exists x. split; [reflexivity |].
           rewrite last_app, Hlast. reflexivity.
    + destruct (Hreq i (inl r0)) as [x Hx]; [| discriminate Hx].
      apply elem_of_app. left. rewrite !elem_of_cons. auto.
Qed.
(** ** The wait schedule *)

Lemma Do_loop_schedule (c : Client) (n : nat) :
  forall (i wait : Z) resp err (w : W) r e w' log,
    Do_loop c n i wait resp err w = (r, e, w', log) ->
    follows_schedule c wait (requests log) (waits log).
Proof.
  induction n as [| n IH]; intros i wait resp err w r e w' log Hrun.
  - simpl in Hrun. inversion Hrun; subst. exact I.
  - apply Do_loop_inv in Hrun
      as [(evs & Hb & ->) | (r1 & e1 & wt1 & w1 & evs & log1 & Hb & Hrest & ->)].
    + inversion Hb; subst; simpl; auto.
    + rewrite requests_app, waits_app.
      apply IH in Hrest.
      inversion Hb; subst; simpl; auto.
Qed.

Lemma follows_schedule_head (c : Client) (wait : Z)
      (outs : list (Response B + error)) (ds : list Z) (d : Z) :
  follows_schedule c wait outs ds -> ds !! 0%nat = Some d -> d = wait.
Proof.
  destruct ds as [| d0 ds]; simpl.
  - intros _ Hd. discriminate Hd.
  - intros [-> _] Hd. injection Hd as ->. reflexivity.
Qed.

Lemma follows_schedule_next (c : Client) (k : nat) :
  forall (wait : Z) (outs : list (Response B + error)) (ds : list Z) out d d',
    follows_schedule c wait outs ds ->
    outs !! k = Some out -> ds !! k = Some d -> ds !! S k = Some d' ->
    d' = getNextWait c (wait_key out) d.
Proof.
  induction k as [| k IH]; intros wait outs ds out d d' Hs Hout Hd Hd'.
  - destruct ds as [| d0 [| d1 ds]]; try discriminate.
    destruct outs as [| o outs]; try discriminate.
    simpl in *. destruct Hs as [-> [-> _]].
    injection Hout as ->. injection Hd as ->. injection Hd' as ->.
    reflexivity.
  - destruct ds as [| d0 ds]; try discriminate.
    destruct outs as [| o outs]; try discriminate.
    simpl in Hs. destruct Hs as [_ Hs].
    exact (IH _ outs ds out d d' Hs Hout Hd Hd').
Qed.

Lemma wrap64_small (z : Z) : - 2 ^ 63 <= z < 2 ^ 63 -> wrap64 z = z.
Proof.
  intros Hz. unfold wrap64. rewrite Z.mod_small; lia.
Qed.

Lemma getNextWait_safe (c : Client) (key d : Z) :
  doubles_safely (retryWaitMin c) -> doubles_safely (retryWaitMax c) ->
  doubles_safely d -> doubles_safely (getNextWait c key d).
Proof.
  unfold doubles_safely, getNextWait. intros Hmin Hmax Hd.
  destruct (backoffStrategy c !! key) as [s |]; [| assumption].
  destruct (s =? ExponentialBackoff); [| destruct (s =? ConstantBackoff); assumption].
  rewrite wrap64_small by lia.
  destruct (d * 2 >? retryWaitMax c) eqn:Hcmp; [assumption |].
  rewrite Z.gtb_ltb in Hcmp. apply Z.ltb_ge in Hcmp. lia.
Qed.

Lemma follows_schedule_safe (c : Client)
      (outs : list (Response B + error)) :
  doubles_safely (retryWaitMin c) -> doubles_safely (retryWaitMax c) ->
  forall (ds : list Z) (wait : Z),
    doubles_safely wait -> follows_schedule c wait outs ds ->
    forall k d, ds !! k = Some d -> doubles_safely d.
Proof.
  intros Hmin Hmax.
  induction outs as [| o outs IH]; intros ds wait Hw Hs k d Hk.
  - destruct ds as [| d0 ds]; [discriminate |].
    simpl in Hs. destruct Hs as [-> ->].
    destruct k; [injection Hk as <-; assumption | discriminate].
  - destruct ds as [| d0 ds]; [discriminate |].
    simpl in Hs. destruct Hs as [-> Hs].
    destruct k as [| k]; [injection Hk as <-; assumption |].
    apply (IH ds _ (getNextWait_safe c _ _ Hmin Hmax Hw) Hs k d Hk).
Qed.

Lemma getNextWait_constant (c : Client) (key d : Z) :
  backoffStrategy c !! key = Some ConstantBackoff ->
  getNextWait c key d = retryWaitMin c.
Proof. unfold getNextWait. intros ->. reflexivity. Qed.

Lemma getNextWait_unconfigured (c : Client) (key d : Z) :
  backoffStrategy c !! key = None ->
  getNextWait c key d = retryWaitMin c.
Proof. unfold getNextWait. intros ->. reflexivity. Qed.

Lemma getNextWait_exponential (c : Client) (key d : Z) :
  backoffStrategy c !! key = Some ExponentialBackoff ->
  doubles_safely d ->
  getNextWait c key d = Z.min (d * 2) (retryWaitMax c).
Proof.
  unfold getNextWait, doubles_safely. intros -> Hd. simpl.
  rewrite wrap64_small by lia.
  destruct (d * 2 >? retryWaitMax c) eqn:Hcmp.
  - rewrite Z.gtb_ltb in Hcmp. apply Z.ltb_lt in Hcmp. lia.
  - rewrite Z.gtb_ltb in Hcmp. apply Z.ltb_ge in Hcmp. lia.
Qed.
(** Past [2^62] nanoseconds the [int64] product wraps: doubling a
    wait of [2^62] gives [-2^63], which is not above [retryWaitMax]. *)
Example getNextWait_wraps :
  getNextWait (New [WithRetryWaitMin (2 ^ 62); WithRetryWaitMax (2 ^ 62)])
              429 (2 ^ 62) = - 2 ^ 63.
Proof. vm_compute. reflexivity. Qed.

(** ** The retry decision *)

Lemma shouldRetry_iff (statusCode : Z) :
  shouldRetry statusCode = true <-> retriable_code statusCode.
Proof.
  unfold shouldRetry, retriable_code, StatusTooManyRequests,
    StatusServiceUnavailable, StatusGatewayTimeout, StatusBadGateway.
  repeat match goal with
         | |- context [?a =? ?b] => destruct (Z.eqb_spec a b)
         end; split; intros Hx; try reflexivity; try discriminate Hx;
    try lia.
Qed.

Lemma retry_test_iff (c : Client) (i statusCode : Z) :
  shouldRetry statusCode && (i <? retryMax c) = true <->
  retriable_code statusCode /\ i < retryMax c.
Proof.
  rewrite andb_true_iff, shouldRetry_iff, Z.ltb_lt. reflexivity.
Qed.

Lemma Do_loop_first (c : Client) (n : nat) (i wait : Z) resp err (w : W)
      r e w' log :
  Do_loop c (S n) i wait resp err w = (r, e, w', log) ->
  exists out rest, log = EvRequest i out :: rest.
Proof.
  intros Hrun.
  apply Do_loop_inv in Hrun
    as [(evs & Hb & ->) | (r1 & e1 & wt1 & w1 & evs & log1 & Hb & Hrest & ->)];
    inversion Hb; subst; simpl; eauto.
Qed.

(** Peeling the events of one pass off a split log. *)
Ltac peel H pre :=
  destruct pre as [| ? pre]; simpl in H;
  [ try discriminate H | injection H as _ H ].

Lemma Do_loop_decision (c : Client) (n : nat) :
  forall (i0 wait : Z) resp err (w : W) r e w' pre i x post,
    i0 + Z.of_nat n = retryMax c + 1 ->
    Do_loop c n i0 wait resp err w =
      (r, e, w', pre ++ EvRequest i (inl x) :: post) ->
    (retriable_code (StatusCode x) /\ i < retryMax c ->
     exists d fired post',
       post = EvBodyClose i :: EvWait d fired :: post' /\
       (fired = None ->
        exists out post'', post' = EvRequest (i + 1) out :: post'')) /\
    (~ (retriable_code (StatusCode x) /\ i < retryMax c) ->
     post = [] /\ r = accept c x /\ e = None).
Proof.
  induction n as [| n IH];
    intros i0 wait resp err w r e w' pre i x post Hn Hrun.
  - simpl in Hrun. inversion Hrun as [[Hr He Hw Hlog]].
    destruct pre; discriminate Hlog.
  - apply Do_loop_inv in Hrun
      as [(evs & Hb & Hlog) | (r1 & e1 & wt1 & w1 & evs & log1 & Hb & Hrest & Hlog)].
    + revert Hlog. inversion Hb; subst; intros Hlog.
      * peel Hlog pre. destruct pre; discriminate Hlog.
      * peel Hlog pre. peel Hlog pre. destruct pre; discriminate Hlog.
      * peel Hlog pre.
        -- injection Hlog as -> -> ->. split.
           ++ intros _. exists wait, (Some ce), []. split; [reflexivity |].
              intros Hc. discriminate Hc.
           ++ intros Hno. exfalso. apply Hno. split; [| assumption].
              apply shouldRetry_iff. assumption.
        -- peel Hlog pre. peel Hlog pre. destruct pre; discriminate Hlog.
      * peel Hlog pre.
        -- injection Hlog as -> -> ->. split.
           ++ intros Hyes. apply retry_test_iff in Hyes. congruence.
           ++ intros _. repeat split; reflexivity.
        -- destruct pre; discriminate Hlog.
    + revert Hlog. inversion Hb; subst; intros Hlog.
      * peel Hlog pre. peel Hlog pre. rewrite <- Hlog in Hrest.
        eapply IH; [| exact Hrest]. lia.
      * peel Hlog pre.
        -- injection Hlog as -> -> ->. split.
           ++ intros _. exists wait, None, log1. split; [reflexivity |].
              intros _. destruct n as [| n]; [lia |].
              apply Do_loop_first in Hrest. exact Hrest.
           ++ intros Hno. exfalso. apply Hno. split; [| assumption].
              apply shouldRetry_iff. assumption.
        -- peel Hlog pre. peel Hlog pre. rewrite <- Hlog in Hrest.
           eapply IH; [| exact Hrest]. lia.
Qed.
End DoFacts.

(** ** Statements about [Do] *)

Section DoClaims.
Context {W B : Type} `{ReadCloser B} `{World W B}.

Lemma Do_counter_invariant (c : Client) :
  0 <= retryMax c ->
  0 + Z.of_nat (Z.to_nat (retryMax c + 1)) = retryMax c + 1.
Proof. lia. Qed.

(** C10.  With a negative [retryMax] the loop body never runs: [Do]
    sends no request, performs no effect on the world, and returns a nil
    response together with a nil error. *)
Theorem Do_negative_retryMax (c : Client) (w : W) :
  retryMax c < 0 ->
  Do c w = (None, None, w, []).
Proof.
  intros Hneg. unfold Do.
  replace (Z.to_nat (retryMax c + 1)) with 0%nat by lia.
  reflexivity.
Qed.

(** C3.  A response received on the final attempt ([i = retryMax]) is
    returned whatever its status code, hence also when the code is a
    retriable, mapped one: [Do] returns that response with its body
    wrapped by [LimitedReader] and a nil error, the request is the last
    thing [Do] did (no close, no wait), and the result is the one
    [accept] builds on the non-retriable path. *)
Theorem Do_response_on_final_attempt (c : Client) (w : W) resp err w' log r :
  Do c w = (resp, err, w', log) ->
  EvRequest (retryMax c) (inl r) ∈ log ->
  resp = Some (mkResponse (StatusCode r)
                 (Limited (mkLimited (maxResponseSize c) (Body r)))) /\
  err = None /\
  resp = accept c r /\
  exists pre, log = pre ++ [EvRequest (retryMax c) (inl r)].
Proof.
  unfold Do. intros Hrun Hin.
  destruct (Z.lt_ge_cases (retryMax c) 0) as [Hneg | Hpos].
  - replace (Z.to_nat (retryMax c + 1)) with 0%nat in Hrun by lia.
    simpl in Hrun. inversion Hrun; subst. apply elem_of_nil in Hin. destruct Hin.
  - destruct (Do_loop_final_response c _ _ _ _ _ _ _ _ _ _ r
                (Do_counter_invariant c Hpos) Hrun Hin) as (-> & -> & Hpre).
    repeat split; try reflexivity. exact Hpre.
Qed.

(** C5.  When the request's context is done while [Do] is blocked in a
    backoff wait (after a transport error or after a retriable
    response), [Do] returns a nil response and the context's error, and
    that wait is the last thing it did: no further request is sent. *)
Theorem Do_cancelled_during_wait (c : Client) (w : W) resp err w' log d ce :
  Do c w = (resp, err, w', log) ->
  EvWait d (Some ce) ∈ log ->
  resp = None /\ err = Some ce /\
  exists pre, log = pre ++ [EvWait d (Some ce)].
Proof.
  unfold Do. intros Hrun Hin.
  exact (Do_loop_cancelled c _ _ _ _ _ _ _ _ _ _ _ _ Hrun Hin).
Qed.

(** C2.  For [retryMax = n >= 0], when every attempt fails at the
    transport level (each request of the run returned an error and no
    response) and no backoff wait is cut short by the request's context,
    [Do] performs exactly [n + 1] attempts and returns a nil response
    with the error of the last of them, the attempt numbered
    [retryMax]. *)
Theorem Do_transport_failure_attempts (c : Client) (w : W) resp err w' log :
  0 <= retryMax c ->
  Do c w = (resp, err, w', log) ->
  (forall i out, EvRequest i out ∈ log -> exists e, out = inr e) ->
  (forall d fired, EvWait d fired ∈ log -> fired = None) ->
  Z.of_nat (attempts log) = retryMax c + 1 /\
  resp = None /\
  exists e, err = Some e /\
            last log = Some (EvRequest (retryMax c) (inr e)).
Proof.
  unfold Do. intros Hpos Hrun Hreq Hwait.
  destruct (Do_loop_all_errors c _ _ _ _ _ _ _ _ _ _
              (Do_counter_invariant c Hpos) ltac:(lia) Hrun Hreq Hwait)
    as (Hat & -> & e & -> & Hlast).
  repeat split.
  - rewrite Hat. lia.
  - exists e. split; [reflexivity | exact Hlast].
Qed.
(** C4.  Within one call of [Do] the first wait lasts [retryWaitMin],
    and the wait after it is recomputed from the strategy the map gives
    for the status code of the attempt that caused the retry (the
    [k]-th wait follows the [k]-th attempt): [retryWaitMin] under
    [ConstantBackoff], and [min (wait * 2) retryWaitMax] under
    [ExponentialBackoff].  The two bounds are durations whose double
    fits [int64] (at most [2^62] nanoseconds, about 146 years). *)
Theorem Do_wait_recurrence (c : Client) (w : W) resp err w' log :
  doubles_safely (retryWaitMin c) ->
  doubles_safely (retryWaitMax c) ->
  Do c w = (resp, err, w', log) ->
  (forall d, waits log !! 0%nat = Some d -> d = retryWaitMin c) /\
  (forall k out d d',
      requests log !! k = Some out ->
      waits log !! k = Some d ->
      waits log !! S k = Some d' ->
      (backoffStrategy c !! wait_key out = Some ConstantBackoff ->
       d' = retryWaitMin c) /\
      (backoffStrategy c !! wait_key out = Some ExponentialBackoff ->
       d' = Z.min (d * 2) (retryWaitMax c))).
Proof.
  unfold Do. intros Hmin Hmax Hrun.
  apply Do_loop_schedule in Hrun. split.
  - intros d Hd. exact (follows_schedule_head c _ _ _ d Hrun Hd).
  - intros k out d d' Hout Hd Hd'.
    rewrite (follows_schedule_next c k _ _ _ out d d' Hrun Hout Hd Hd').
    split; intros Hkey.
    + apply getNextWait_constant. exact Hkey.
    + apply getNextWait_exponential; [exact Hkey |].
      exact (follows_schedule_safe c _ Hmin Hmax _ _ Hmin Hrun k d Hd).
Qed.

Lemma getNextWait_by_strategy (c : Client) (key d : Z) :
  (backoffStrategy c !! key = None -> getNextWait c key d = retryWaitMin c) /\
  (backoffStrategy c !! key = Some ExponentialBackoff ->
   getNextWait c key d = Z.min (wrap64 (d * 2)) (retryWaitMax c)) /\
  (forall s, backoffStrategy c !! key = Some s ->
             s <> ExponentialBackoff ->
             getNextWait c key d = retryWaitMin c).
Proof.
  unfold getNextWait. split; [| split].
  - intros ->. reflexivity.
  - intros ->. simpl.
    destruct (wrap64 (d * 2) >? retryWaitMax c) eqn:Hcmp;
      rewrite Z.gtb_ltb in Hcmp;
      [apply Z.ltb_lt in Hcmp | apply Z.ltb_ge in Hcmp]; lia.
  - intros s -> Hs.
    destruct (Z.eqb_spec s ExponentialBackoff) as [Heq | _];
      [contradiction |].
    destruct (s =? ConstantBackoff); reflexivity.
Qed.

(** C8, as the code has it.  [Do] waits first and recomputes the wait
    afterwards.  So the wait taken right after a transport error is the
    wait that stood before it: [retryWaitMin] on the first attempt,
    otherwise the value computed from the key of the attempt before
    (the status code of that attempt's response, or [0]).  The wait
    after that one is computed by looking up the key [0] in the backoff
    map: [retryWaitMin] when the key is not configured or is mapped to
    anything but [ExponentialBackoff], and the [int64] double of the
    wait, capped at [retryWaitMax], when it is mapped to
    [ExponentialBackoff].  The map [New] starts from has no key [0]. *)
Theorem Do_wait_after_transport_error (c : Client) (w : W)
        resp err w' log k e d d' :
  Do c w = (resp, err, w', log) ->
  requests log !! k = Some (inr e) ->
  waits log !! k = Some d ->
  waits log !! S k = Some d' ->
  ((backoffStrategy c !! 0 = None -> d' = retryWaitMin c) /\
   (backoffStrategy c !! 0 = Some ExponentialBackoff ->
    d' = Z.min (wrap64 (d * 2)) (retryWaitMax c)) /\
   (forall s, backoffStrategy c !! 0 = Some s ->
              s <> ExponentialBackoff -> d' = retryWaitMin c)) /\
  (k = 0%nat -> d = retryWaitMin c) /\
  (forall (j : nat) before d0,
      k = S j ->
      requests log !! j = Some before ->
      waits log !! j = Some d0 ->
      (backoffStrategy c !! wait_key before = None ->
       d = retryWaitMin c) /\
      (backoffStrategy c !! wait_key before = Some ExponentialBackoff ->
       d = Z.min (wrap64 (d0 * 2)) (retryWaitMax c)) /\
      (forall s, backoffStrategy c !! wait_key before = Some s ->
                 s <> ExponentialBackoff -> d = retryWaitMin c)) /\
  backoffStrategy (New []) !! 0 = None.
Proof.
  unfold Do. intros Hrun Hout Hd Hd'.
  apply Do_loop_schedule in Hrun.
  split; [| split; [| split]].
  - rewrite (follows_schedule_next c k _ _ _ _ d d' Hrun Hout Hd Hd').
    exact (getNextWait_by_strategy c 0 d).
  - intros ->. exact (follows_schedule_head c _ _ _ d Hrun Hd).
  - intros j before d0 -> Hbefore Hd0.
    rewrite (follows_schedule_next c j _ _ _ before d0 d Hrun Hbefore Hd0 Hd).
    exact (getNextWait_by_strategy c (wait_key before) d0).
  - reflexivity.
Qed.

(** C1, as the code has it.  Whether a received response is retried is
    decided by [shouldRetry] and the attempts left, for every
    configuration: a response whose status code is 429, 502, 503 or 504
    is retried while attempts remain (its body is closed, [Do] waits,
    and unless the wait is cut short the next attempt is sent); any
    other response, and any response on the last attempt, is accepted
    and returned at once.  The backoff map takes no part in this
    decision; it only selects the next wait. *)
Theorem Do_retry_decision (c : Client) (w : W) resp err w' pre i r post :
  Do c w = (resp, err, w', pre ++ EvRequest i (inl r) :: post) ->
  (retriable_code (StatusCode r) /\ i < retryMax c ->
   exists d fired post',
     post = EvBodyClose i :: EvWait d fired :: post' /\
     (fired = None ->
      exists out post'', post' = EvRequest (i + 1) out :: post'')) /\
  (~ (retriable_code (StatusCode r) /\ i < retryMax c) ->
   post = [] /\ resp = accept c r /\ err = None).
Proof.
  unfold Do. intros Hrun.
  destruct (Z.lt_ge_cases (retryMax c) 0) as [Hneg | Hpos].
  - replace (Z.to_nat (retryMax c + 1)) with 0%nat in Hrun by lia.
    simpl in Hrun. inversion Hrun as [[Hr He Hw Hlog]].
    destruct pre; discriminate Hlog.
  - exact (Do_loop_decision c _ _ _ _ _ _ _ _ _ _ _ _ _
             (Do_counter_invariant c Hpos) Hrun).
Qed.
End DoClaims.

(** ** The bounded body *)

Section BoundedBodyFacts.
Context {B : Type} `{ReadCloser B}.

Lemma truncated_buffer (n : Z) (len_p : nat) :
  0 < n ->
  (if Z.of_nat len_p >? n then Z.to_nat n else len_p) =
  Nat.min len_p (Z.to_nat n).
Proof.
  intros Hn. destruct (Z.of_nat len_p >? n) eqn:Hcmp.
  - rewrite Z.gtb_ltb in Hcmp. apply Z.ltb_lt in Hcmp. lia.
  - rewrite Z.gtb_ltb in Hcmp. apply Z.ltb_ge in Hcmp. lia.
Qed.

(** With the budget used up, [Read] answers [EOF] and leaves the
    underlying stream alone. *)
Lemma limitedReadCloser_Read_exhausted (l : limitedReadCloser B)
      (len_p : nat) :
  lrc_N l <= 0 -> Read l len_p = ([], Some EOF, l).
Proof.
  intros Hn. simpl. unfold limitedReadCloser_Read.
  apply Z.leb_le in Hn. rewrite Hn. reflexivity.
Qed.

(** Over any stream that honours the [io.Reader] contract, a caller
    never gathers more than the budget. *)
Lemma read_until_error_bounded (fuel len_p : nat) :
  reads_within_buffer (B := B) ->
  forall l : limitedReadCloser B,
    Z.of_nat (length (read_until_error fuel len_p l).1.1)
    <= Z.max 0 (lrc_N l).
Proof.
  intros Hcontract.
  induction fuel as [| fuel IH]; intros [n b]; [simpl; lia |].
  cbn [read_until_error Read limitedReadCloser_ReadCloser].
  unfold limitedReadCloser_Read. cbn [lrc_N lrc_body].
  destruct (n <=? 0) eqn:Hle; [simpl; lia |].
  apply Z.leb_gt in Hle.
  rewrite truncated_buffer by assumption.
  pose proof (Hcontract b (Nat.min len_p (Z.to_nat n))) as Hlen.
  destruct (Read b (Nat.min len_p (Z.to_nat n))) as [[bs err] b'].
  simpl in Hlen.
  destruct err as [e |]; [simpl; lia |].
  specialize (IH (mkLimited (n - Z.of_nat (length bs)) b')).
  destruct (read_until_error fuel len_p
              (mkLimited (n - Z.of_nat (length bs)) b'))
    as [[bs' err'] l'].
  simpl in *. rewrite length_app. lia.
Qed.

(** C9.  While bytes remain in the budget ([N > 0]), an error of the
    underlying stream's [Read] comes out of the bounded reader's [Read]
    as it is: the same bytes (hence the same count) and the same error
    value.  The underlying stream is read with the caller's buffer cut
    to the remaining budget. *)
Theorem limitedReadCloser_Read_error_unchanged
        (l : limitedReadCloser B) (len_p : nat) bs e b' :
  0 < lrc_N l ->
  Read (lrc_body l) (Nat.min len_p (Z.to_nat (lrc_N l))) = (bs, Some e, b') ->
  Read l len_p =
    (bs, Some e, mkLimited (lrc_N l - Z.of_nat (length bs)) b').
Proof.
  intros Hn Hread. simpl. unfold limitedReadCloser_Read.
  destruct (lrc_N l <=? 0) eqn:Hle; [apply Z.leb_le in Hle; lia |].
  rewrite (truncated_buffer _ _ Hn), Hread. reflexivity.
Qed.

(** C7, as the code has it.  Every call of [Close] on the bounded
    reader calls [Close] of the underlying resource once, whatever has
    been read, and returns what that call returns; the bounded reader
    keeps no record of having been closed.  So [k] calls close the
    underlying resource [k] times, with the underlying resource's own
    results, and leave the byte budget as it was. *)
Theorem limitedReadCloser_Close_delegates (k : nat) :
  forall l : limitedReadCloser B,
    close_times k l =
    ((close_times k (lrc_body l)).1,
     mkLimited (lrc_N l) (close_times k (lrc_body l)).2).
Proof.
  induction k as [| k IH]; intros [n b]; simpl.
  - reflexivity.
  - unfold limitedReadCloser_Close. simpl.
    destruct (Close b) as [err b1]. rewrite IH. simpl.
    destruct (close_times k b1) as [errs b2]. reflexivity.
Qed.
End BoundedBodyFacts.

(** ** Truncation *)

Lemma memBody_Read_partial (data : list byte) (chunk : nat) fault closes
      (k : nat) :
  (0 < k < length data)%nat -> (0 < chunk)%nat ->
  exists n, (0 < n <= k)%nat /\
    memBody_Read (mkMemBody data chunk fault closes) k =
    (take n data, None, mkMemBody (drop n data) chunk fault closes).
Proof.
  intros Hk Hchunk. exists (Nat.min k (Nat.min chunk (length data))).
  split; [lia |].
  unfold memBody_Read. simpl.
  destruct data as [| x data]; [simpl in Hk; lia |].
  destruct (Nat.eqb_spec (Nat.min k (Nat.min chunk (length (x :: data))))
                         (length (x :: data))) as [Heq | _]; [lia |].
  reflexivity.
Qed.

Lemma read_until_error_limited (len_p chunk : nat) fault closes :
  (0 < len_p)%nat -> (0 < chunk)%nat ->
  forall (m : nat) (data : list byte) (fuel : nat),
    (m < length data)%nat -> (m < fuel)%nat ->
    read_until_error fuel len_p
      (mkLimited (Z.of_nat m) (mkMemBody data chunk fault closes)) =
    (take m data, Some EOF,
     mkLimited 0 (mkMemBody (drop m data) chunk fault closes)).
Proof.
  intros Hlen Hchunk m.
  induction m as [m IH] using lt_wf_ind.
  intros data fuel Hdata Hfuel.
  destruct fuel as [| fuel]; [lia |].
  destruct m as [| m'].
  - reflexivity.
  - set (m := S m') in *.
    cbn [read_until_error Read limitedReadCloser_ReadCloser].
    unfold limitedReadCloser_Read. cbn [lrc_N lrc_body].
    destruct (Z.of_nat m <=? 0) eqn:Hle; [apply Z.leb_le in Hle; lia |].
    rewrite truncated_buffer by lia. rewrite Nat2Z.id.
    cbn [Read memBody_ReadCloser].
    destruct (memBody_Read_partial data chunk fault closes (Nat.min len_p m))
      as (n & Hn & ->); [lia | assumption |].
    replace (Z.of_nat m - Z.of_nat (length (take n data)))
      with (Z.of_nat (m - n)) by (rewrite length_take; lia).
    rewrite (IH (m - n)%nat) by (rewrite ?length_drop; lia).
    rewrite take_take_drop, drop_drop.
    replace (n + (m - n))%nat with m by lia.
    reflexivity.
Qed.

(** C6.  A bounded reader with [maxResponseSize = N] over a stream that
    holds [M > N] bytes: draining it with [Read] gathers exactly the
    first [N] bytes of the stream and ends with the end-of-stream signal
    [EOF]; every later [Read] returns no byte and [EOF] again, although
    the underlying stream still holds the other [M - N] bytes. *)
Theorem LimitedReader_truncates (c : Client) (data : list byte)
        (chunk : nat) fault closes (len_p : nat) :
  0 <= maxResponseSize c < Z.of_nat (length data) ->
  (0 < len_p)%nat -> (0 < chunk)%nat ->
  let N := Z.to_nat (maxResponseSize c) in
  let l := LimitedReader c (mkMemBody data chunk fault closes) in
  exists l',
    read_until_error (S N) len_p l = (take N data, Some EOF, l') /\
    length (take N data) = N /\
    (forall k, Read l' k = ([], Some EOF, l')) /\
    mb_data (lrc_body l') = drop N data /\
    length (mb_data (lrc_body l')) = (length data - N)%nat.
Proof.
  intros HN Hlen Hchunk N l.
  exists (mkLimited 0 (mkMemBody (drop N data) chunk fault closes)).
  split; [| split; [| split; [| split]]].
  - unfold l, LimitedReader.
    replace (maxResponseSize c) with (Z.of_nat N) by (unfold N; lia).
    apply read_until_error_limited; try assumption; unfold N; lia.
  - rewrite length_take. unfold N. lia.
  - intros k. reflexivity.
  - reflexivity.
  - simpl. rewrite length_drop. reflexivity.
Qed.

(** ** Runs of the scripted world *)

Lemma run_eta {R E W' L : Type} (x : R * E * W' * L) :
  x = (x.1.1.1, x.1.1.2, x.1.2, x.2).
Proof. destruct x as [[[r e] w] l]. reflexivity. Qed.

Lemma Do_negative_retryMax_witness :
  retryMax (New [WithRetryMax (-1)]) < 0 /\
  Do (New [WithRetryMax (-1)]) (mkScript [reply 200 4] []) =
  (None, None, mkScript [reply 200 4] [], []).
Proof.
  split; [reflexivity |].
  apply (Do_negative_retryMax (New [WithRetryMax (-1)])
           (mkScript [reply 200 4] [])).
  reflexivity.
Defined.

Lemma Do_response_on_final_attempt_witness :
  let c := New [WithRetryMax 1] in
  let w := mkScript [reply 503 4; reply 503 4] [] in
  let r := mkResponse 503 (zeros 4) in
  EvRequest (retryMax c) (inl r) ∈ (Do c w).2 /\
  (Do c w).1.1.1 =
    Some (mkResponse 503 (Limited (mkLimited (1024 * 1024) (zeros 4)))) /\
  (Do c w).1.1.2 = None.
Proof.
  intros c w r.
  assert (Hin : EvRequest (retryMax c) (inl r) ∈ (Do c w).2).
  { apply list_elem_of_In. vm_compute. tauto. }
  split; [exact Hin |].
  destruct (Do_response_on_final_attempt c w
              (Do c w).1.1.1 (Do c w).1.1.2 (Do c w).1.2 (Do c w).2 r)
    as (Hresp & Herr & _).
  - reflexivity.
  - exact Hin.
  - split; [exact Hresp | exact Herr].
Defined.

Lemma Do_cancelled_during_wait_witness :
  let c := New [] in
  let w := mkScript [reply 503 4; inr refused; reply 200 4]
                    [None; Some Canceled] in
  EvWait Second (Some Canceled) ∈ (Do c w).2 /\
  (Do c w).1.1.1 = None /\ (Do c w).1.1.2 = Some Canceled /\
  attempts (Do c w).2 = 2%nat.
Proof.
  intros c w.
  assert (Hin : EvWait Second (Some Canceled) ∈ (Do c w).2).
  { apply list_elem_of_In. vm_compute. tauto. }
  split; [exact Hin |].
  destruct (Do_cancelled_during_wait c w
              (Do c w).1.1.1 (Do c w).1.1.2 (Do c w).1.2 (Do c w).2
              Second Canceled)
    as (Hresp & Herr & _).
  - reflexivity.
  - exact Hin.
  - split; [exact Hresp | split; [exact Herr | reflexivity]].
Defined.

Lemma Do_transport_failure_attempts_witness :
  let c := New [WithRetryMax 2] in
  let w := mkScript [] [] in
  0 <= retryMax c /\
  Z.of_nat (attempts (Do c w).2) = 3 /\
  (Do c w).1.1.1 = None /\
  (Do c w).1.1.2 = Some refused.
Proof.
  intros c w.
  split; [vm_compute; discriminate |].
  destruct (Do_transport_failure_attempts c w
              (Do c w).1.1.1 (Do c w).1.1.2 (Do c w).1.2 (Do c w).2)
    as (Hat & Hresp & e & Herr & Hlast).
  - vm_compute; discriminate.
  - reflexivity.
  - intros i out Hin. apply list_elem_of_In in Hin. vm_compute in Hin.
    repeat (destruct Hin as [Hin | Hin];
            [first [discriminate Hin | injection Hin as _ <-; eauto] |]).
    destruct Hin.
  - intros d fired Hin. apply list_elem_of_In in Hin. vm_compute in Hin.
    repeat (destruct Hin as [Hin | Hin];
            [first [discriminate Hin | injection Hin as _ <-; eauto] |]).
    destruct Hin.
  - split; [exact Hat |]. split; [exact Hresp |].
    rewrite Herr. f_equal.
    vm_compute in Hlast. injection Hlast as <-. reflexivity.
Defined.

Example Do_exponential_1s_10s :
  waits (Do client_1s_10s always_429).2 =
  [1 * Second; 2 * Second; 4 * Second; 8 * Second; 10 * Second; 10 * Second].
Proof. vm_compute. reflexivity. Qed.

(** Constant backoff: an upstream that keeps answering 503. *)
Example Do_constant_503 :
  waits (Do (New [WithRetryMax 4]) (mkScript (replicate 5 (reply 503 0)) [])).2
  = [Second; Second; Second; Second].
Proof. vm_compute. reflexivity. Qed.

Lemma Do_wait_recurrence_witness :
  let c := client_1s_10s in
  let log := (Do c always_429).2 in
  doubles_safely (retryWaitMin c) /\
  doubles_safely (retryWaitMax c) /\
  requests log !! 3%nat = Some (reply 429 0) /\
  waits log !! 3%nat = Some (8 * Second) /\
  waits log !! 4%nat = Some (10 * Second) /\
  backoffStrategy c !! 429 = Some ExponentialBackoff /\
  10 * Second = Z.min (8 * Second * 2) (retryWaitMax c).
Proof.
  intros c log.
  assert (Hmin : doubles_safely (retryWaitMin c)) by (vm_compute; split; [intro Hc; discriminate Hc | reflexivity]).
  assert (Hmax : doubles_safely (retryWaitMax c)) by (vm_compute; split; [intro Hc; discriminate Hc | reflexivity]).
  assert (Hout : requests log !! 3%nat = Some (reply 429 0)) by reflexivity.
  assert (Hd : waits log !! 3%nat = Some (8 * Second)) by reflexivity.
  assert (Hd' : waits log !! 4%nat = Some (10 * Second)) by reflexivity.
  assert (Hkey : backoffStrategy c !! 429 = Some ExponentialBackoff) by reflexivity.
  repeat (split; [assumption |]).
  destruct (Do_wait_recurrence c always_429
              (Do c always_429).1.1.1 (Do c always_429).1.1.2
              (Do c always_429).1.2 (Do c always_429).2 Hmin Hmax
              (run_eta (Do c always_429)))
    as [_ Hrec].
  destruct (Hrec 3%nat (reply 429 0) (8 * Second) (10 * Second) Hout Hd Hd')
    as [_ Hexp].
  exact (Hexp Hkey).
Defined.

(** The defaults, whose map has no key [0]: after a 429 the wait that
    follows the transport error lasts two seconds, not [retryWaitMin];
    it is the wait computed after the 429. *)
Lemma Do_wait_right_after_transport_error :
  backoffStrategy (New []) !! 0 = None /\
  retryWaitMin (New []) = 1 * Second /\
  2 * Second <> retryWaitMin (New []) /\
  Do (New []) after_429_refused =
  (Some (mkResponse 200 (Limited (mkLimited (1024 * 1024) (zeros 4)))),
   None, mkScript [] [],
   [EvRequest 0 (reply 429 4); EvBodyClose 0; EvWait (1 * Second) None;
    EvRequest 1 (inr refused); EvWait (2 * Second) None;
    EvRequest 2 (reply 200 4)]).
Proof.
  split; [reflexivity |]. split; [reflexivity |]. split.
  - vm_compute. intro Hc. discriminate Hc.
  - vm_compute. reflexivity.
Qed.

(** The defaults against a transport that always fails: every wait
    lasts [retryWaitMin]. *)
Example Do_default_waits_after_errors :
  waits (Do (New []) (mkScript [] [])).2 = [Second; Second; Second].
Proof. vm_compute. reflexivity. Qed.

(** The key [0] mapped to [ExponentialBackoff], against a transport
    that always fails: the waits double. *)
Lemma Do_wait_after_transport_error_witness :
  let c := client_sentinel_exponential in
  let log := (Do c (mkScript [] [])).2 in
  requests log !! 1%nat = Some (inr refused) /\
  waits log !! 1%nat = Some (2 * Second) /\
  waits log !! 2%nat = Some (4 * Second) /\
  backoffStrategy c !! 0 = Some ExponentialBackoff /\
  4 * Second = Z.min (wrap64 (2 * Second * 2)) (retryWaitMax c) /\
  (forall before d0,
      requests log !! 0%nat = Some before ->
      waits log !! 0%nat = Some d0 ->
      backoffStrategy c !! wait_key before = Some ExponentialBackoff ->
      2 * Second = Z.min (wrap64 (d0 * 2)) (retryWaitMax c)).
Proof.
  intros c log.
  assert (Hout : requests log !! 1%nat = Some (inr refused)) by reflexivity.
  assert (Hd : waits log !! 1%nat = Some (2 * Second)) by reflexivity.
  assert (Hd' : waits log !! 2%nat = Some (4 * Second)) by reflexivity.
  assert (Hkey : backoffStrategy c !! 0 = Some ExponentialBackoff)
    by reflexivity.
  repeat (split; [assumption |]).
  destruct (Do_wait_after_transport_error c (mkScript [] [])
              (Do c (mkScript [] [])).1.1.1 (Do c (mkScript [] [])).1.1.2
              (Do c (mkScript [] [])).1.2 (Do c (mkScript [] [])).2
              1%nat refused (2 * Second) (4 * Second)
              (run_eta (Do c (mkScript [] []))) Hout Hd Hd')
    as ((_ & Hexp & _) & _ & Hprev & _).
  split; [exact (Hexp Hkey) |].
  intros before d0 Hbefore Hd0 Hk.
  destruct (Hprev 0%nat before d0 eq_refl Hbefore Hd0) as (_ & Hexp0 & _).
  exact (Hexp0 Hk).
Defined.

(** The code 500 is a key of the map and three retries remain, yet the
    500 response is returned on the first attempt: one request, no body
    closed, no wait. *)
Lemma Do_mapped_500_not_retried :
  backoffStrategy client_with_500 !! 500 = Some ConstantBackoff /\
  0 < retryMax client_with_500 /\
  Do client_with_500 (mkScript [reply 500 4; reply 200 4] []) =
  (Some (mkResponse 500 (Limited (mkLimited (1024 * 1024) (zeros 4)))),
   None,
   mkScript [reply 200 4] [],
   [EvRequest 0 (reply 500 4)]).
Proof. repeat split; vm_compute; reflexivity. Qed.

(** A client value whose map is empty still retries a 503: the decision
    does not read the map. *)
Example Do_unmapped_503_retried :
  let c := mkClient defaultTimeout defaultMaxIdleConns 1 Second Second
                    defaultMaxResponseSize ∅ in
  backoffStrategy c !! 503 = None /\
  (Do c (mkScript [reply 503 4; reply 200 4] [])).2 =
  [EvRequest 0 (reply 503 4); EvBodyClose 0; EvWait Second None;
   EvRequest 1 (reply 200 4)].
Proof. split; vm_compute; reflexivity. Qed.

Lemma Do_retry_decision_witness :
  let w := mkScript [reply 503 4; reply 500 4; reply 200 4] [] in
  let accepted :=
    Some (mkResponse 500 (Limited (mkLimited (1024 * 1024) (zeros 4)))) in
  Do client_with_500 w =
    (accepted, None, mkScript [reply 200 4] [],
     [] ++ EvRequest 0 (inl (answer 503 4))
        :: [EvBodyClose 0; EvWait Second None; EvRequest 1 (reply 500 4)]) /\
  (exists d fired post',
      [EvBodyClose 0; EvWait Second None; EvRequest 1 (reply 500 4)] =
      EvBodyClose 0 :: EvWait d fired :: post' /\
      (fired = None ->
       exists out post'', post' = EvRequest (0 + 1) out :: post'')).
Proof.
  intros w accepted.
  assert (Hrun : Do client_with_500 w =
    (accepted, None, mkScript [reply 200 4] [],
     [] ++ EvRequest 0 (inl (answer 503 4))
        :: [EvBodyClose 0; EvWait Second None; EvRequest 1 (reply 500 4)]))
    by (vm_compute; reflexivity).
  split; [exact Hrun |].
  destruct (Do_retry_decision client_with_500 w _ _ _ _ _ _ _ Hrun)
    as [Hyes _].
  apply Hyes. split.
  - right. right. left. reflexivity.
  - reflexivity.
Defined.

(** The broken body behind a budget of ten. *)
Lemma limitedReadCloser_Read_error_unchanged_witness :
  let l := mkLimited 10 broken_body in
  0 < lrc_N l /\
  Read l 8 =
    ([x01%byte; x02%byte; x03%byte], Some reset,
     mkLimited 7 (mkMemBody [] 8 (Some reset) 0)).
Proof.
  intros l. split; [reflexivity |].
  apply (limitedReadCloser_Read_error_unchanged l 8
           [x01%byte; x02%byte; x03%byte] reset
           (mkMemBody [] 8 (Some reset) 0)).
  - reflexivity.
  - reflexivity.
Defined.

(** Two calls of [Close] on a bounded reader over a body that, like a
    file, reports its second [Close]: the second call returns that
    error, and the body has been closed twice. *)
Lemma limitedReadCloser_Close_twice :
  let l := LimitedReader defaultClient (zeros 4) in
  (Close l).1 = None /\
  (Close (Close l).2).1 = Some (ErrOther "already closed") /\
  mb_closes (lrc_body (Close (Close l).2).2) = 2%nat.
Proof. repeat split; reflexivity. Qed.

(** Ten bytes behind a budget of four, delivered three at a time and
    read into a buffer of two. *)
Lemma LimitedReader_truncates_witness :
  let c := New [WithMaxResponseSize 4] in
  let l := LimitedReader c (mkMemBody ten_bytes 3 None 0) in
  0 <= maxResponseSize c < Z.of_nat (length ten_bytes) /\
  (0 < 2)%nat /\ (0 < 3)%nat /\
  exists l',
    read_until_error 5 2 l = ([x00; x01; x02; x03]%byte, Some EOF, l') /\
    (forall k, Read l' k = ([], Some EOF, l')) /\
    mb_data (lrc_body l') = [x04; x05; x06; x07; x08; x09]%byte.
Proof.
  intros c l.
  assert (HN : 0 <= maxResponseSize c < Z.of_nat (length ten_bytes))
    by (vm_compute; split; [intro Hc; discriminate Hc | reflexivity]).
  split; [exact HN |]. split; [lia |]. split; [lia |].
  destruct (LimitedReader_truncates c ten_bytes 3 None 0 2 HN) as
    (l' & Hread & _ & Heof & Hrest & _); [lia | lia |].
  exists l'. split; [exact Hread |]. split; [exact Heof | exact Hrest].
Defined.

(** * Further properties of [Do] *)

Section DoAccounting.
Context {W B : Type} `{ReadCloser B} `{World W B}.

Lemma request_indices_app (l1 l2 : list (event B)) :
  request_indices (l1 ++ l2) = request_indices l1 ++ request_indices l2.
Proof. unfold request_indices. apply omap_app. Qed.

Lemma responses_app (l1 l2 : list (event B)) :
  responses (l1 ++ l2) = responses l1 ++ responses l2.
Proof. unfold responses. apply omap_app. Qed.

Lemma closes_app (l1 l2 : list (event B)) :
  closes (l1 ++ l2) = closes l1 ++ closes l2.
Proof. unfold closes. apply omap_app. Qed.

Lemma Do_loop_indices (c : Client) (n : nat) :
  forall (i0 wait : Z) resp err (w : W) r e w' log (k : nat) (i : Z),
    Do_loop c n i0 wait resp err w = (r, e, w', log) ->
    request_indices log !! k = Some i ->
    i = i0 + Z.of_nat k.
Proof.
  induction n as [| n IH]; intros i0 wait resp err w r e w' log k i Hrun Hk.
  - simpl in Hrun. inversion Hrun; subst. discriminate Hk.
  - apply Do_loop_inv in Hrun
      as [(evs & Hb & ->) | (r1 & e1 & wt1 & w1 & evs & log1 & Hb & Hrest & ->)].
    + inversion Hb; subst; simpl in Hk;
        (destruct k as [| k]; [injection Hk as <-; lia | discriminate Hk]).
    + rewrite request_indices_app in Hk.
      inversion Hb; subst; simpl in Hk;
        (destruct k as [| k]; [injection Hk as <-; lia |]);
        simpl in Hk;
        rewrite (IH _ _ _ _ _ _ _ _ _ k i Hrest Hk); lia.
Qed.

(** The counts of one run of the loop that starts with at least one
    pass to go. *)
Lemma Do_loop_accounting (c : Client) (n : nat) :
  forall (i0 wait : Z) resp err (w : W) r e w' log,
    i0 + Z.of_nat n = retryMax c + 1 -> (0 < n)%nat ->
    Do_loop c n i0 wait resp err w = (r, e, w', log) ->
    (1 <= attempts log <= n)%nat /\
    (length (waits log) < n)%nat /\
    (length (waits log) <= attempts log <= S (length (waits log)))%nat /\
    (length (closes log) + (if r is Some _ then 1 else 0) =
     length (responses log))%nat /\
    ((r = None /\ exists x, e = Some x) \/
     (e = None /\
      exists x, r = accept c x /\ last (requests log) = Some (inl x))).
Proof.
  induction n as [| n IH];
    intros i0 wait resp err w r e w' log Hn Hpos Hrun; [lia |].
  apply Do_loop_inv in Hrun
    as [(evs & Hb & ->) | (r1 & e1 & wt1 & w1 & evs & log1 & Hb & Hrest & ->)].
  - inversion Hb; subst; unfold attempts; simpl;
      (repeat split; try lia; eauto).
  - assert (0 < n)%nat as Hn' by (inversion Hb; subst; lia).
    destruct (IH (i0 + 1) wt1 r1 e1 w1 r e w' log1 ltac:(lia) Hn' Hrest)
      as (Hat & Hwt & Hrel & Hleak & Hshape).
    unfold attempts in *.
    rewrite requests_app, waits_app, closes_app, responses_app, !length_app.
    assert (Hlast : last (requests evs ++ requests log1)
                    = last (requests log1)).
    { rewrite last_app. destruct (last (requests log1)) eqn:Hl; [reflexivity |].
      apply last_None in Hl. rewrite Hl in Hat. simpl in Hat. lia. }
    rewrite Hlast.
    inversion Hb; subst; simpl; (repeat split; try lia; exact Hshape).
Qed.

(** Requests are numbered [0, 1, 2, ...] in the order they are sent, and
    there are at most [retryMax + 1] of them (none when [retryMax] is
    negative, at least one otherwise). *)
Theorem Do_requests_numbered (c : Client) (w : W) resp err w' log :
  Do c w = (resp, err, w', log) ->
  (forall (k : nat) (i : Z),
      request_indices log !! k = Some i -> i = Z.of_nat k) /\
  Z.of_nat (attempts log) <= Z.max 0 (retryMax c + 1) /\
  (0 <= retryMax c -> (1 <= attempts log)%nat).
Proof.
  unfold Do. intros Hrun. split; [| split].
  - intros k i Hk.
    rewrite (Do_loop_indices c _ _ _ _ _ _ _ _ _ _ k i Hrun Hk). lia.
  - destruct (Z.lt_ge_cases (retryMax c) 0) as [Hneg | Hpos].
    + replace (Z.to_nat (retryMax c + 1)) with 0%nat in Hrun by lia.
      simpl in Hrun. inversion Hrun; subst.
      change (attempts (B := B) []) with 0%nat. lia.
    + destruct (Do_loop_accounting c _ _ _ _ _ _ _ _ _ _
                  (Do_counter_invariant c Hpos) ltac:(lia) Hrun)
        as (Hat & _). lia.
  - intros Hpos.
    destruct (Do_loop_accounting c _ _ _ _ _ _ _ _ _ _
                (Do_counter_invariant c Hpos) ltac:(lia) Hrun)
      as (Hat & _). lia.
Qed.

(** [Do] waits at most [retryMax] times, and between any two requests
    exactly once: the waits number as many as the requests, or one
    fewer. *)
Theorem Do_waits_counted (c : Client) (w : W) resp err w' log :
  0 <= retryMax c ->
  Do c w = (resp, err, w', log) ->
  Z.of_nat (length (waits log)) <= retryMax c /\
  (length (waits log) <= attempts log <= S (length (waits log)))%nat.
Proof.
  unfold Do. intros Hpos Hrun.
  destruct (Do_loop_accounting c _ _ _ _ _ _ _ _ _ _
              (Do_counter_invariant c Hpos) ltac:(lia) Hrun)
    as (_ & Hwt & Hrel & _).
  split; [lia | exact Hrel].
Qed.

(** With [retryMax >= 0] a run ends in exactly one of two ways: a nil
    response with an error, or a nil error with the response of the last
    request, its body behind a bounded reader of [maxResponseSize]
    bytes.  [Do] never returns an upstream body as it came. *)
Theorem Do_result_shape (c : Client) (w : W) resp err w' log :
  0 <= retryMax c ->
  Do c w = (resp, err, w', log) ->
  (resp = None /\ exists e, err = Some e) \/
  (err = None /\
   exists r,
     resp = Some (mkResponse (StatusCode r)
                    (Limited (mkLimited (maxResponseSize c) (Body r)))) /\
     last (requests log) = Some (inl r)).
Proof.
  unfold Do. intros Hpos Hrun.
  destruct (Do_loop_accounting c _ _ _ _ _ _ _ _ _ _
              (Do_counter_invariant c Hpos) ltac:(lia) Hrun)
    as (_ & _ & _ & _ & Hshape).
  exact Hshape.
Qed.

(** No response is dropped open: every response [Do] receives is either
    the one it returns or has had its body closed.  The closed bodies
    and the returned response together number the responses received. *)
Theorem Do_closes_what_it_drops (c : Client) (w : W) resp err w' log :
  Do c w = (resp, err, w', log) ->
  (length (closes log) + (if resp is Some _ then 1 else 0)
   = length (responses log))%nat.
Proof.
  unfold Do. intros Hrun.
  destruct (Z.lt_ge_cases (retryMax c) 0) as [Hneg | Hpos].
  - replace (Z.to_nat (retryMax c + 1)) with 0%nat in Hrun by lia.
    simpl in Hrun. inversion Hrun; subst. reflexivity.
  - destruct (Do_loop_accounting c _ _ _ _ _ _ _ _ _ _
                (Do_counter_invariant c Hpos) ltac:(lia) Hrun)
      as (_ & _ & _ & Hleak & _).
    exact Hleak.
Qed.
End DoAccounting.

Section DoSchedule.
Context {W B : Type} `{ReadCloser B} `{World W B}.

Lemma follows_schedule_step (c : Client) (k : nat) :
  forall (wait : Z) (outs : list (Response B + error)) (ds : list Z) d',
    follows_schedule c wait outs ds ->
    ds !! S k = Some d' ->
    exists out d,
      outs !! k = Some out /\ ds !! k = Some d /\
      d' = getNextWait c (wait_key out) d.
Proof.
  induction k as [| k IH]; intros wait outs ds d' Hs Hd'.
  - destruct ds as [| d0 [| d1 ds]]; try discriminate Hd'.
    simpl in Hs. destruct Hs as [-> Hs].
    destruct outs as [| o outs]; [discriminate Hs |].
    destruct Hs as [-> _]. injection Hd' as <-.
    exists o, wait. repeat split; reflexivity.
  - destruct ds as [| d0 ds]; [discriminate Hd' |].
    simpl in Hs. destruct Hs as [_ Hs].
    destruct outs as [| o outs]; [subst ds; discriminate Hd' |].
    exact (IH _ outs ds d' Hs Hd').
Qed.

Lemma follows_schedule_all (P : Z -> Prop) (c : Client) :
  (forall key d, P d -> P (getNextWait c key d)) ->
  forall (outs : list (Response B + error)) (ds : list Z) (wait : Z),
    P wait -> follows_schedule c wait outs ds ->
    forall k d, ds !! k = Some d -> P d.
Proof.
  intros Hstep outs.
  induction outs as [| o outs IH]; intros ds wait Hw Hs k d Hk.
  - destruct ds as [| d0 ds]; [discriminate Hk |].
    simpl in Hs. destruct Hs as [-> ->].
    destruct k; [injection Hk as <-; assumption | discriminate Hk].
  - destruct ds as [| d0 ds]; [discriminate Hk |].
    simpl in Hs. destruct Hs as [-> Hs].
    destruct k as [| k]; [injection Hk as <-; assumption |].
    exact (IH ds _ (Hstep _ _ Hw) Hs k d Hk).
Qed.

Lemma getNextWait_within (c : Client) (key d : Z) :
  0 <= retryWaitMin c <= retryWaitMax c -> retryWaitMax c < 2 ^ 62 ->
  retryWaitMin c <= d <= retryWaitMax c ->
  retryWaitMin c <= getNextWait c key d <= retryWaitMax c.
Proof.
  intros Hmin Hmax Hd. unfold getNextWait.
  destruct (backoffStrategy c !! key) as [s |]; [| lia].
  destruct (s =? ExponentialBackoff); [| destruct (s =? ConstantBackoff); lia].
  rewrite wrap64_small by lia.
  destruct (d * 2 >? retryWaitMax c) eqn:Hcmp; [lia |].
  rewrite Z.gtb_ltb in Hcmp. apply Z.ltb_ge in Hcmp. lia.
Qed.

(** With [0 <= retryWaitMin <= retryWaitMax < 2^62] every backoff wait
    of a run lasts between [retryWaitMin] and [retryWaitMax], whatever
    the strategies and the attempts' outcomes. *)
Theorem Do_waits_within_bounds (c : Client) (w : W) resp err w' log :
  0 <= retryWaitMin c <= retryWaitMax c ->
  retryWaitMax c < 2 ^ 62 ->
  Do c w = (resp, err, w', log) ->
  forall (k : nat) (d : Z),
    waits log !! k = Some d -> retryWaitMin c <= d <= retryWaitMax c.
Proof.
  unfold Do. intros Hmin Hmax Hrun k d Hk.
  apply Do_loop_schedule in Hrun.
  refine (follows_schedule_all
            (fun d => retryWaitMin c <= d <= retryWaitMax c) c
            (fun key d => getNextWait_within c key d Hmin Hmax)
            _ _ (retryWaitMin c) _ Hrun k d Hk).
  lia.
Qed.

Lemma follows_schedule_closed_form (c : Client)
      (outs : list (Response B + error)) (ds : list Z) :
  0 <= retryWaitMin c <= retryWaitMax c ->
  retryWaitMax c < 2 ^ 62 ->
  follows_schedule c (retryWaitMin c) outs ds ->
  forall (k : nat) (d : Z),
    (forall (j : nat) out,
        (j < k)%nat -> outs !! j = Some out ->
        backoffStrategy c !! wait_key out = Some ExponentialBackoff) ->
    ds !! k = Some d ->
    d = Z.min (2 ^ Z.of_nat k * retryWaitMin c) (retryWaitMax c).
Proof.
  intros Hmin Hmax Hrun.
  induction k as [| k IH]; intros d Hexp Hk.
  - rewrite (follows_schedule_head c _ _ _ d Hrun Hk).
    change (2 ^ Z.of_nat 0) with 1. lia.
  - destruct (follows_schedule_step c k _ _ _ d Hrun Hk)
      as (out & d0 & Hout & Hd0 & ->).
    assert (Hd0' : d0 = Z.min (2 ^ Z.of_nat k * retryWaitMin c)
                              (retryWaitMax c)).
    { apply IH; [| exact Hd0].
      intros j o Hj Ho. apply (Hexp j o); [lia | exact Ho]. }
    assert (Hpow : 0 <= 2 ^ Z.of_nat k * retryWaitMin c).
    { apply Z.mul_nonneg_nonneg; [| lia].
      apply Z.pow_nonneg. lia. }
    rewrite getNextWait_exponential;
      [| apply (Hexp k out); [lia | exact Hout]
       | unfold doubles_safely; lia ].
    rewrite Nat2Z.inj_succ, Z.pow_succ_r by lia.
    lia.
Qed.

(** Exponential backoff in closed form: when every attempt before the
    [k]-th wait ended on a key whose strategy is [ExponentialBackoff],
    that wait lasts [min (2^k * retryWaitMin) retryWaitMax]; so with
    [retryWaitMin = 0] it never waits at all. *)
Theorem Do_exponential_closed_form (c : Client) (w : W) resp err w' log :
  0 <= retryWaitMin c <= retryWaitMax c ->
  retryWaitMax c < 2 ^ 62 ->
  Do c w = (resp, err, w', log) ->
  forall (k : nat) (d : Z),
    (forall (j : nat) out,
        (j < k)%nat -> requests log !! j = Some out ->
        backoffStrategy c !! wait_key out = Some ExponentialBackoff) ->
    waits log !! k = Some d ->
    d = Z.min (2 ^ Z.of_nat k * retryWaitMin c) (retryWaitMax c).
Proof.
  unfold Do. intros Hmin Hmax Hrun.
  apply Do_loop_schedule in Hrun.
  exact (follows_schedule_closed_form c _ _ Hmin Hmax Hrun).
Qed.

(** [retryMax = 0] means one attempt and nothing else: one request, no
    body closed, no wait; its response is accepted whatever its status
    code, and its error is returned as it came. *)
Theorem Do_retryMax_zero (c : Client) (w : W) resp err w' log :
  retryMax c = 0 ->
  Do c w = (resp, err, w', log) ->
  exists out,
    log = [EvRequest 0 out] /\
    match out with
    | inl r => resp = accept c r /\ err = None
    | inr e => resp = None /\ err = Some e
    end.
Proof.
  unfold Do. intros Hzero Hrun. rewrite Hzero in Hrun.
  change (Z.to_nat (0 + 1)) with 1%nat in Hrun.
  apply Do_loop_inv in Hrun
    as [(evs & Hb & ->) | (r1 & e1 & wt1 & w1 & evs & log1 & Hb & Hrest & ->)];
    inversion Hb; subst; try lia.
  - exists (inr e). split; [reflexivity | split; reflexivity].
  - exists (inl r). split; [reflexivity | split; reflexivity].
Qed.
End DoSchedule.

Section DoIndependence.
Context {W B : Type} `{ReadCloser B} `{World W B}.

Lemma Do_loop_untimed (c1 c2 : Client) :
  retryMax c1 = retryMax c2 ->
  maxResponseSize c1 = maxResponseSize c2 ->
  (forall (d d' : Z) (w : W), select_wait d w = select_wait d' w) ->
  forall (n : nat) (i wait1 wait2 : Z) resp err (w : W),
    (Do_loop c1 n i wait1 resp err w).1 =
    (Do_loop c2 n i wait2 resp err w).1 /\
    untimed (Do_loop c1 n i wait1 resp err w).2 =
    untimed (Do_loop c2 n i wait2 resp err w).2.
Proof.
  intros Hrm Hms Hsel.
  induction n as [| n IH]; intros i wait1 wait2 resp err w.
  - split; reflexivity.
  - rewrite !Do_loop_S. unfold Do_body. rewrite <- Hrm.
    destruct (http_Do w) as [[r | e] w1].
    + destruct (shouldRetry (StatusCode r) && (i <? retryMax c1)).
      * rewrite (Hsel wait1 wait2 w1).
        destruct (select_wait wait2 w1) as [[ce |] w2].
        -- split; reflexivity.
        -- destruct (IH (i + 1) (getNextWait c1 (StatusCode r) wait1)
                        (getNextWait c2 (StatusCode r) wait2)
                        (Some (mkResponse (StatusCode r)
                                 (Upstream (snd (Close (Body r))))))
                        None w2) as [Heq Hlog].
           destruct (Do_loop c1 n (i + 1) _ _ _ w2) as [[[r1 e1] w1'] log1].
           destruct (Do_loop c2 n (i + 1) _ _ _ w2) as [[[r2 e2] w2'] log2].
           simpl in *. inversion Heq; subst. split; [reflexivity |].
           f_equal. f_equal. f_equal. exact Hlog.
      * unfold accept, LimitedReader. rewrite Hms. split; reflexivity.
    + destruct (i =? retryMax c1); [split; reflexivity |].
      rewrite (Hsel wait1 wait2 w1).
      destruct (select_wait wait2 w1) as [[ce |] w2].
      * split; reflexivity.
      * destruct (IH (i + 1) (getNextWait c1 0 wait1)
                     (getNextWait c2 0 wait2) None (Some e) w2)
          as [Heq Hlog].
        destruct (Do_loop c1 n (i + 1) _ _ _ w2) as [[[r1 e1] w1'] log1].
        destruct (Do_loop c2 n (i + 1) _ _ _ w2) as [[[r2 e2] w2'] log2].
        simpl in *. inversion Heq; subst. split; [reflexivity |].
        f_equal. f_equal. exact Hlog.
Qed.

(** The backoff map and the two wait bounds decide how long [Do] waits
    and nothing else: in a world whose [select] does not look at the
    duration, two clients that agree on [retryMax] and
    [maxResponseSize] send the same requests, close the same bodies,
    and return the same response and error. *)
Theorem Do_outcome_independent_of_backoff (c1 c2 : Client) (w : W) :
  retryMax c1 = retryMax c2 ->
  maxResponseSize c1 = maxResponseSize c2 ->
  (forall (d d' : Z) (w : W), select_wait d w = select_wait d' w) ->
  (Do c1 w).1 = (Do c2 w).1 /\
  untimed (Do c1 w).2 = untimed (Do c2 w).2.
Proof.
  intros Hrm Hms Hsel. unfold Do. rewrite <- Hrm.
  apply Do_loop_untimed; assumption.
Qed.

(** A response whose status code has no entry in the map is accepted at
    once by every client whose map has an entry for each code
    [shouldRetry] names. *)
Lemma Do_loop_unmapped_accepted (c : Client) (w : W) resp err w' pre i r post :
  (forall code, retriable_code code ->
                is_Some (backoffStrategy c !! code)) ->
  Do c w = (resp, err, w', pre ++ EvRequest i (inl r) :: post) ->
  backoffStrategy c !! StatusCode r = None ->
  post = [] /\ resp = accept c r /\ err = None.
Proof.
  unfold Do. intros Hkeys Hrun Hnone.
  destruct (Z.lt_ge_cases (retryMax c) 0) as [Hneg | Hpos].
  - replace (Z.to_nat (retryMax c + 1)) with 0%nat in Hrun by lia.
    simpl in Hrun. inversion Hrun as [[Hr He Hw Hlog]].
    destruct pre; discriminate Hlog.
  - destruct (Do_loop_decision c _ _ _ _ _ _ _ _ _ _ _ _ _
                (Do_counter_invariant c Hpos) Hrun) as [_ Hno].
    apply Hno. intros [Hcode _].
    destruct (Hkeys _ Hcode) as [s Hs]. congruence.
Qed.
End DoIndependence.

(** ** Clients built by [New] *)

Lemma defaultClient_retriable_keys (code : Z) :
  retriable_code code -> is_Some (backoffStrategy defaultClient !! code).
Proof.
  intros [-> | [-> | [-> | ->]]]; eexists; reflexivity.
Qed.

Lemma package_option_keeps_keys (o : Option) (c : Client) (code : Z) :
  package_option o ->
  is_Some (backoffStrategy c !! code) ->
  is_Some (backoffStrategy (o c) !! code).
Proof.
  intros Ho Hc. destruct Ho; simpl; try exact Hc.
  apply lookup_insert_is_Some'. right. exact Hc.
Qed.

Lemma foldl_options_keep_keys (opts : list Option) :
  Forall package_option opts ->
  forall (c : Client) (code : Z),
    is_Some (backoffStrategy c !! code) ->
    is_Some (backoffStrategy (foldl (fun c opt => opt c) c opts) !! code).
Proof.
  induction 1 as [| o opts Ho _ IH]; intros c code Hc; simpl.
  - exact Hc.
  - apply IH. apply package_option_keeps_keys; assumption.
Qed.

(** Options can change the strategy of a status code but never remove
    one: whatever options of the package [New] is given, the client's
    map has an entry for 429, 502, 503 and 504, the codes [shouldRetry]
    names. *)
Theorem New_keeps_retriable_keys (opts : list Option) (code : Z) :
  Forall package_option opts ->
  retriable_code code ->
  is_Some (backoffStrategy (New opts) !! code).
Proof.
  intros Hopts Hcode. unfold New.
  apply foldl_options_keep_keys; [exact Hopts |].
  apply defaultClient_retriable_keys. exact Hcode.
Qed.

(** For a client built by [New] from options of the package, a response
    whose status code is absent from the backoff map is never retried:
    it is the last thing the run did, and it is returned, wrapped, with
    a nil error. *)
Theorem New_unmapped_code_never_retried
        {W B : Type} `{ReadCloser B} `{World W B}
        (opts : list Option) (w : W) resp err w' pre i r post :
  Forall package_option opts ->
  Do (New opts) w = (resp, err, w', pre ++ EvRequest i (inl r) :: post) ->
  backoffStrategy (New opts) !! StatusCode r = None ->
  post = [] /\
  resp = Some (mkResponse (StatusCode r)
                 (Limited (mkLimited (maxResponseSize (New opts))
                                     (Body r)))) /\
  err = None.
Proof.
  intros Hopts Hrun Hnone.
  apply (Do_loop_unmapped_accepted (New opts) w resp err w' pre i r post);
    try assumption.
  intros code Hcode. unfold New.
  apply foldl_options_keep_keys; [exact Hopts |].
  apply defaultClient_retriable_keys. exact Hcode.
Qed.

(** [New] applies its options in order, so the last
    [WithBackoffStrategy] for a status code decides that code's
    strategy, whatever came before; the entries of the other codes and
    the other settings are as without it. *)
Theorem New_WithBackoffStrategy_last (opts : list Option)
        (code : Z) (s : Z) :
  backoffStrategy (New (opts ++ [WithBackoffStrategy code s])) !! code
  = Some s /\
  (forall other : Z,
      other <> code ->
      backoffStrategy (New (opts ++ [WithBackoffStrategy code s])) !! other
      = backoffStrategy (New opts) !! other) /\
  retryMax (New (opts ++ [WithBackoffStrategy code s]))
  = retryMax (New opts) /\
  retryWaitMin (New (opts ++ [WithBackoffStrategy code s]))
  = retryWaitMin (New opts) /\
  retryWaitMax (New (opts ++ [WithBackoffStrategy code s]))
  = retryWaitMax (New opts) /\
  maxResponseSize (New (opts ++ [WithBackoffStrategy code s]))
  = maxResponseSize (New opts).
Proof.
  unfold New. rewrite foldl_app. simpl.
  split; [apply lookup_insert_eq |].
  split; [| repeat split; reflexivity].
  intros other Hne. apply lookup_insert_ne. congruence.
Qed.

(** * Further properties of the bounded body *)

Lemma memBody_reads_within_buffer : reads_within_buffer (B := memBody).
Proof.
  intros b k. simpl. unfold memBody_Read.
  destruct (mb_data b) as [| x data] eqn:Hdata; simpl; [lia |].
  rewrite length_take. lia.
Qed.

Lemma read_until_error_small (len_p chunk : nat) fault closes :
  (0 < len_p)%nat -> (0 < chunk)%nat ->
  forall (fuel : nat) (data : list byte) (m : Z),
    (length data < fuel)%nat -> Z.of_nat (length data) < m ->
    read_until_error fuel len_p
      (mkLimited m (mkMemBody data chunk fault closes)) =
    (data, Some (default EOF fault),
     mkLimited (m - Z.of_nat (length data))
               (mkMemBody [] chunk fault closes)).
Proof.
  intros Hlen Hchunk.
  induction fuel as [| fuel IH]; intros data m Hfuel Hm; [lia |].
  cbn [read_until_error Read limitedReadCloser_ReadCloser].
  unfold limitedReadCloser_Read. cbn [lrc_N lrc_body].
  destruct (m <=? 0) eqn:Hle; [apply Z.leb_le in Hle; lia |].
  rewrite truncated_buffer by lia.
  cbn [Read memBody_ReadCloser]. unfold memBody_Read. cbn [mb_data mb_chunk mb_fault mb_closes].
  destruct data as [| x xs] eqn:Hdata.
  - simpl. reflexivity.
  - rewrite <- Hdata in *.
    assert (Hlen_data : (0 < length data)%nat) by (rewrite Hdata; simpl; lia).
    set (n := Nat.min (Nat.min len_p (Z.to_nat m))
                      (Nat.min chunk (length data))).
    assert (Hn : (0 < n <= length data)%nat) by (unfold n; lia).
    destruct (Nat.eqb_spec n (length data)) as [Heq | Hne].
    + rewrite Heq, firstn_all, skipn_all.
      destruct fault as [e |]; [reflexivity |].
      rewrite (IH [] (m - Z.of_nat (length data))) by (simpl; lia).
      rewrite app_nil_r. simpl. f_equal. f_equal. lia.
    + rewrite (IH (drop n data) (m - Z.of_nat (length (take n data))))
        by (rewrite ?length_drop, ?length_take; lia).
      rewrite take_drop. f_equal. f_equal.
      rewrite length_drop, length_take. lia.
Qed.

(** A body shorter than the budget passes through whole: draining the
    bounded reader gathers every byte of the stream and ends with the
    stream's own signal, [EOF] or the error the stream ends with. *)
Theorem LimitedReader_passes_small_body (c : Client) (data : list byte)
        (chunk : nat) fault closes (len_p fuel : nat) :
  Z.of_nat (length data) < maxResponseSize c ->
  (0 < len_p)%nat -> (0 < chunk)%nat -> (length data < fuel)%nat ->
  (read_until_error fuel len_p
     (LimitedReader c (mkMemBody data chunk fault closes))).1 =
  (data, Some (default EOF fault)).
Proof.
  intros HN Hlen Hchunk Hfuel. unfold LimitedReader.
  rewrite (read_until_error_small len_p chunk fault closes Hlen Hchunk
             fuel data (maxResponseSize c) Hfuel HN).
  reflexivity.
Qed.

(** A budget of zero, or a negative one, lets nothing through: every
    [Read] answers [EOF] at once and the underlying stream is never
    read, whatever it holds. *)
Theorem LimitedReader_no_budget {B : Type} `{ReadCloser B}
        (c : Client) (body : B) (len_p fuel : nat) :
  maxResponseSize c <= 0 ->
  read_until_error (S fuel) len_p (LimitedReader c body) =
  ([], Some EOF, LimitedReader c body).
Proof.
  intros HN. cbn [read_until_error].
  rewrite limitedReadCloser_Read_exhausted by exact HN.
  reflexivity.
Qed.

(** * The earlier package against the later one *)

Section Httclient_refinement.
Context {W B : Type} `{ReadCloser B} `{World W B}.

Lemma Httclient_shouldRetry_agrees (statusCode : Z) :
  Httclient.shouldRetry statusCode = shouldRetry statusCode.
Proof.
  unfold Httclient.shouldRetry, shouldRetry.
  destruct (statusCode =? StatusTooManyRequests);
    destruct (statusCode =? StatusServiceUnavailable);
    destruct (statusCode =? StatusGatewayTimeout);
    destruct (statusCode =? StatusBadGateway); reflexivity.
Qed.

Lemma getNextWait_all_exponential (c0 : Httclient.Client) (c : Client)
      (key wait : Z) :
  same_retry_settings c0 c ->
  backoffStrategy c !! key = Some ExponentialBackoff ->
  getNextWait c key wait = Httclient.double_wait c0 wait.
Proof.
  intros (_ & _ & Hmax) Hkey.
  unfold getNextWait, Httclient.double_wait. rewrite Hkey, Hmax.
  reflexivity.
Qed.

Lemma Do_loop_refines_Httclient (c0 : Httclient.Client) (c : Client) :
  same_retry_settings c0 c -> all_exponential c ->
  forall (n : nat) (i wait : Z) r0 e0 r1 e1 (w : W),
    i + Z.of_nat n = retryMax c + 1 -> (0 < n)%nat ->
    Do_loop c n i wait r1 e1 w =
    let '(r, e, w', log) := Httclient.Do_loop c0 n i wait r0 e0 w in
    (bounded c <$> r, e, w', log).
Proof.
  intros Hsame [Hzero Hcodes].
  pose proof Hsame as (Hrm & Hmin & Hmax).
  induction n as [| n IH]; intros i wait r0 e0 r1 e1 w Hn Hpos; [lia |].
  rewrite Do_loop_S. cbn [Httclient.Do_loop].
  unfold Do_body, Httclient.Do_body.
  destruct (http_Do w) as [[r | e] w1]; rewrite Hrm.
  - rewrite Httclient_shouldRetry_agrees.
    destruct (shouldRetry (StatusCode r) && (i <? retryMax c)) eqn:Hre;
      [| reflexivity].
    apply retry_test_iff in Hre as [Hcode Hi].
    destruct (select_wait wait w1) as [[ce |] w2]; [reflexivity |].
    rewrite (getNextWait_all_exponential c0 c _ _ Hsame (Hcodes _ Hcode)).
    rewrite (IH (i + 1) _
                (Some (mkResponse (StatusCode r) (snd (Close (Body r)))))
                None _ _ w2) by lia.
    destruct (Httclient.Do_loop c0 n (i + 1) _ _ _ w2)
      as [[[r' e'] w'] log']. reflexivity.
  - destruct (i =? retryMax c) eqn:Hi; [reflexivity |].
    apply Z.eqb_neq in Hi.
    destruct (select_wait wait w1) as [[ce |] w2]; [reflexivity |].
    rewrite (getNextWait_all_exponential c0 c _ _ Hsame Hzero).
    rewrite (IH (i + 1) _ None (Some e) _ _ w2) by lia.
    destruct (Httclient.Do_loop c0 n (i + 1) _ _ _ w2)
      as [[[r' e'] w'] log']. reflexivity.
Qed.

(** The later [Do], configured to double the wait after every retry,
    is the earlier [Do] with a bounded body: on the same world both send
    the same requests, close the same bodies, wait the same durations
    and return the same error, and the later one returns the earlier
    one's response with its body behind [LimitedReader]. *)
Theorem Do_refines_Httclient (c0 : Httclient.Client) (c : Client) (w : W)
        r0 e0 w0 log0 :
  same_retry_settings c0 c ->
  all_exponential c ->
  Httclient.Do c0 w = (r0, e0, w0, log0) ->
  Do c w = (bounded c <$> r0, e0, w0, log0).
Proof.
  intros Hsame Hexp Hold.
  pose proof Hsame as (Hrm & Hmin & Hmax).
  unfold Do, Httclient.Do in *. rewrite Hrm, Hmin in Hold.
  destruct (Z.lt_ge_cases (retryMax c) 0) as [Hneg | Hpos].
  - replace (Z.to_nat (retryMax c + 1)) with 0%nat in * by lia.
    simpl in *. inversion Hold; subst. reflexivity.
  - rewrite (Do_loop_refines_Httclient c0 c Hsame Hexp _ _ _ None None
               None None w (Do_counter_invariant c Hpos)) by lia.
    rewrite Hold. reflexivity.
Qed.
End Httclient_refinement.

Section Httclient_schedule.
Context {W B : Type} `{ReadCloser B} `{World W B}.

Lemma Httclient_Do_loop_waits (c0 : Httclient.Client) (n : nat) :
  forall (i wait : Z) r0 e0 (w : W) (k : nat) (d : Z),
    waits (Httclient.Do_loop c0 n i wait r0 e0 w).2 !! k = Some d ->
    d = Nat.iter k (Httclient.double_wait c0) wait.
Proof.
  induction n as [| n IH]; intros i wait r0 e0 w k d Hk.
  - discriminate Hk.
  - cbn [Httclient.Do_loop] in Hk. unfold Httclient.Do_body in Hk.
    destruct (http_Do w) as [[r | e] w1].
    + destruct (Httclient.shouldRetry (StatusCode r)
                && (i <? Httclient.retryMax c0)).
      * destruct (select_wait wait w1) as [[ce |] w2].
        -- simpl in Hk. destruct k as [| k]; [| discriminate Hk].
           injection Hk as <-. reflexivity.
        -- specialize (IH (i + 1) (Httclient.double_wait c0 wait)
                          (Some (mkResponse (StatusCode r)
                                   (snd (Close (Body r))))) None w2).
           destruct (Httclient.Do_loop c0 n (i + 1) _ _ _ w2)
             as [[[r' e'] w'] log'].
           simpl in Hk. destruct k as [| k].
           ++ injection Hk as <-. reflexivity.
           ++ rewrite (IH k d Hk). simpl. rewrite <- Nat.iter_succ_r.
              reflexivity.
      * discriminate Hk.
    + destruct (i =? Httclient.retryMax c0); [discriminate Hk |].
      destruct (select_wait wait w1) as [[ce |] w2].
      * simpl in Hk. destruct k as [| k]; [| discriminate Hk].
        injection Hk as <-. reflexivity.
      * specialize (IH (i + 1) (Httclient.double_wait c0 wait)
                       None (Some e) w2).
        destruct (Httclient.Do_loop c0 n (i + 1) _ _ _ w2)
          as [[[r' e'] w'] log'].
        simpl in Hk. destruct k as [| k].
        -- injection Hk as <-. reflexivity.
        -- rewrite (IH k d Hk). simpl. rewrite <- Nat.iter_succ_r.
           reflexivity.
Qed.

Lemma double_wait_iter (c0 : Httclient.Client) (k : nat) :
  0 <= Httclient.retryWaitMin c0 <= Httclient.retryWaitMax c0 ->
  Httclient.retryWaitMax c0 < 2 ^ 62 ->
  Nat.iter k (Httclient.double_wait c0) (Httclient.retryWaitMin c0) =
  Z.min (2 ^ Z.of_nat k * Httclient.retryWaitMin c0)
        (Httclient.retryWaitMax c0).
Proof.
  intros Hmin Hmax. induction k as [| k IH].
  - simpl. change (2 ^ Z.of_nat 0) with 1. lia.
  - assert (Hpow : 0 <= 2 ^ Z.of_nat k * Httclient.retryWaitMin c0).
    { apply Z.mul_nonneg_nonneg; [| lia]. apply Z.pow_nonneg. lia. }
    rewrite Nat.iter_succ, IH. unfold Httclient.double_wait.
    rewrite wrap64_small by lia.
    rewrite Nat2Z.inj_succ, Z.pow_succ_r by lia.
    destruct (Z.min _ _ * 2 >? Httclient.retryWaitMax c0) eqn:Hcmp;
      rewrite Z.gtb_ltb in Hcmp;
      [apply Z.ltb_lt in Hcmp | apply Z.ltb_ge in Hcmp]; lia.
Qed.

(** The earlier [Do] backs off exponentially after every retry,
    whatever caused it: with [0 <= retryWaitMin <= retryWaitMax < 2^62]
    its [k]-th wait lasts [min (2^k * retryWaitMin) retryWaitMax]. *)
Theorem Httclient_Do_waits_double (c0 : Httclient.Client) (w : W)
        r0 e0 w0 log0 :
  0 <= Httclient.retryWaitMin c0 <= Httclient.retryWaitMax c0 ->
  Httclient.retryWaitMax c0 < 2 ^ 62 ->
  Httclient.Do c0 w = (r0, e0, w0, log0) ->
  forall (k : nat) (d : Z),
    waits log0 !! k = Some d ->
    d = Z.min (2 ^ Z.of_nat k * Httclient.retryWaitMin c0)
              (Httclient.retryWaitMax c0).
Proof.
  intros Hmin Hmax Hrun k d Hk. unfold Httclient.Do in Hrun.
  rewrite <- (double_wait_iter c0 k Hmin Hmax).
  apply (Httclient_Do_loop_waits
           c0 (Z.to_nat (Httclient.retryMax c0 + 1)) 0
           (Httclient.retryWaitMin c0) None None w k d).
  rewrite Hrun. exact Hk.
Qed.
End Httclient_schedule.

(** * The second revision of [Do] *)

Section V2Facts.
Context {W B : Type} `{V2.World W B}.

(** In the second revision a transport failure (an error and no
    response) on the first attempt is never retried when retries are
    enabled: reading the status code of the nil response panics. *)
Theorem V2_Do_transport_error_panics (c : Client) (w w1 : W) err :
  0 < retryMax c ->
  V2.http_Do w = (None, err, w1) ->
  V2.Do c w = (V2.Panic, w1, [V2.EvRequest None err]).
Proof.
  intros Hpos Hdo. unfold V2.Do.
  destruct (Z.to_nat (retryMax c)) as [| n] eqn:Hn; [lia |].
  cbn [V2.Do_loop]. unfold V2.Do_body. rewrite Hdo. reflexivity.
Qed.

(** In the second revision, with [retryMax <= 0] the loop does not run:
    [Do] sends one request and returns what the transport returns, the
    body as it came. *)
Theorem V2_Do_without_retries (c : Client) (w w1 : W) resp err :
  retryMax c <= 0 ->
  V2.http_Do w = (resp, err, w1) ->
  V2.Do c w = (V2.Returned resp err, w1, [V2.EvRequest resp err]).
Proof.
  intros Hle Hdo. unfold V2.Do.
  replace (Z.to_nat (retryMax c)) with 0%nat by lia.
  cbn [V2.Do_loop]. unfold V2.Do_final. rewrite Hdo. reflexivity.
Qed.

(** In the second revision, when retries are enabled and the first
    response has a status code outside the map, that response is
    dropped with its body open and the request is sent a second time;
    [Do] returns whatever the second request gives. *)
Theorem V2_Do_unmapped_sent_twice (c : Client) (w w1 w2 : W) r resp2 err2 :
  0 < retryMax c ->
  V2.http_Do w = (Some r, None, w1) ->
  backoffStrategy c !! StatusCode r = None ->
  V2.http_Do w1 = (resp2, err2, w2) ->
  V2.Do c w =
  (V2.Returned resp2 err2, w2,
   [V2.EvRequest (Some r) None; V2.EvRequest resp2 err2]).
Proof.
  intros Hpos Hdo Hnone Hdo2. unfold V2.Do.
  destruct (Z.to_nat (retryMax c)) as [| n] eqn:Hn; [lia |].
  cbn [V2.Do_loop]. unfold V2.Do_body. rewrite Hdo, Hnone.
  unfold V2.Do_final. rewrite Hdo2. reflexivity.
Qed.

Lemma V2_Do_loop_all_mapped (c : Client) (n : nat) :
  forall (i wait : Z) (w : W) out w' log,
    V2.Do_loop c n i wait w = (out, w', log) ->
    (forall resp err,
        V2.EvRequest resp err ∈ log ->
        err = None /\
        exists r, resp = Some r /\
                  is_Some (backoffStrategy c !! StatusCode r)) ->
    length log = S n /\
    (forall ev, ev ∈ log -> exists resp err, ev = V2.EvRequest resp err) /\
    exists r, out = V2.Returned (Some r) None /\
              last log = Some (V2.EvRequest (Some r) None).
Proof.
  induction n as [| n IH]; intros i wait w out w' log Hrun Hall.
  - cbn [V2.Do_loop] in Hrun. unfold V2.Do_final in Hrun.
    destruct (V2.http_Do w) as [[resp err] w1].
    inversion Hrun; subst.
    destruct (Hall resp err) as (-> & r & -> & _);
      [apply list_elem_of_here |].
    split; [reflexivity |]. split.
    + intros ev Hev. apply list_elem_of_singleton in Hev. eauto.
    + exists r. split; reflexivity.
  - cbn [V2.Do_loop] in Hrun. unfold V2.Do_body in Hrun.
    destruct (V2.http_Do w) as [[resp err] w1].
    assert (Hfirst : forall rest,
               log = V2.EvRequest resp err :: rest ->
               err = None /\
               exists r, resp = Some r /\
                         is_Some (backoffStrategy c !! StatusCode r)).
    { intros rest ->. apply Hall. apply list_elem_of_here. }
    destruct resp as [r |].
    2:{ inversion Hrun; subst.
        destruct (Hfirst [] eq_refl) as (_ & r & Hr & _). discriminate Hr. }
    destruct err as [e |].
    { destruct (i =? retryMax c).
      - inversion Hrun; subst.
        destruct (Hfirst [] eq_refl) as (He & _). discriminate He.
      - destruct (V2.select_wait wait w1) as [[ce |] w2].
        + inversion Hrun; subst.
          destruct (Hfirst _ eq_refl) as (He & _). discriminate He.
        + destruct (V2.Do_loop c n (i + 1) _ w2) as [[o1 w1'] log1].
          inversion Hrun; subst.
          destruct (Hfirst _ eq_refl) as (He & _). discriminate He. }
    destruct (backoffStrategy c !! StatusCode r) as [s |] eqn:Hs.
    + destruct (V2.Do_loop c n (i + 1) _ w1) as [[o1 w1'] log1] eqn:Hrest.
      inversion Hrun; subst.
      destruct (IH _ _ _ _ _ _ Hrest) as (Hlen & Hreq & r' & -> & Hlast).
      { intros resp err Hin. apply Hall. apply list_elem_of_further.
        exact Hin. }
      split; [simpl; rewrite Hlen; reflexivity |]. split.
      * intros ev Hev. apply elem_of_cons in Hev as [-> | Hev]; eauto.
      * exists r'. split; [reflexivity |].
        change (V2.EvRequest (Some r) None :: log1)
          with ([V2.EvRequest (Some r) None] ++ log1).
        rewrite last_app, Hlast. reflexivity.
    + unfold V2.Do_final in Hrun.
      destruct (V2.http_Do w1) as [[resp2 err2] w2].
      inversion Hrun; subst.
      destruct (Hfirst _ eq_refl) as (_ & r' & Hr' & [s' Hs']).
      injection Hr' as <-. congruence.
Qed.

(** In the second revision, while the upstream keeps answering with
    status codes that are keys of the map, [Do] sends [retryMax + 1]
    requests back to back, with no wait between them and no body
    closed, and returns the last response as it came. *)
Theorem V2_Do_mapped_retried_without_wait (c : Client) (w : W) out w' log :
  0 <= retryMax c ->
  V2.Do c w = (out, w', log) ->
  (forall resp err,
      V2.EvRequest resp err ∈ log ->
      err = None /\
      exists r, resp = Some r /\
                is_Some (backoffStrategy c !! StatusCode r)) ->
  Z.of_nat (length log) = retryMax c + 1 /\
  (forall ev, ev ∈ log -> exists resp err, ev = V2.EvRequest resp err) /\
  exists r, out = V2.Returned (Some r) None /\
            last log = Some (V2.EvRequest (Some r) None).
Proof.
  unfold V2.Do. intros Hpos Hrun Hall.
  destruct (V2_Do_loop_all_mapped c _ _ _ _ _ _ _ Hrun Hall)
    as (Hlen & Hreq & Hout).
  split; [lia |]. split; assumption.
Qed.
End V2Facts.

(** * The body [Do] returns *)

Section DoBody.
Context {W B : Type} `{ReadCloser B} `{World W B}.

(** Whatever the upstream sends, a caller that drains the body of the
    response [Do] returns gathers at most [maxResponseSize] bytes (none
    when that is negative), provided the upstream body honours the
    [io.Reader] contract. *)
Theorem Do_body_within_budget (c : Client) (w : W) resp err w' log :
  0 <= retryMax c ->
  reads_within_buffer (B := B) ->
  Do c w = (Some resp, err, w', log) ->
  exists l : limitedReadCloser B,
    Body resp = Limited l /\
    forall fuel len_p : nat,
      Z.of_nat (length (read_until_error fuel len_p l).1.1)
      <= Z.max 0 (maxResponseSize c).
Proof.
  unfold Do. intros Hpos Hcontract Hrun.
  destruct (Do_loop_accounting c _ _ _ _ _ _ _ _ _ _
              (Do_counter_invariant c Hpos) ltac:(lia) Hrun)
    as (_ & _ & _ & _ & [[Hnone _] | (_ & r & Hr & _)]);
    [discriminate Hnone |].
  unfold accept in Hr. injection Hr as ->.
  exists (LimitedReader c (Body r)). split; [reflexivity |].
  intros fuel len_p.
  apply (read_until_error_bounded fuel len_p Hcontract
           (LimitedReader c (Body r))).
Qed.
End DoBody.

(** * Runs for the further properties *)

Ltac by_computation :=
  vm_compute;
  repeat match goal with
         | |- _ /\ _ => split
         | |- _ = _ => reflexivity
         | |- _ -> False => let Hc := fresh in intro Hc; discriminate Hc
         end.

Lemma Do_requests_numbered_witness :
  (forall (k : nat) (i : Z),
      request_indices (Do (New []) flaky).2 !! k = Some i ->
      i = Z.of_nat k) /\
  Z.of_nat (attempts (Do (New []) flaky).2)
  <= Z.max 0 (retryMax (New []) + 1) /\
  (0 <= retryMax (New []) -> (1 <= attempts (Do (New []) flaky).2)%nat).
Proof.
  exact (Do_requests_numbered (New []) flaky _ _ _ _
           (run_eta (Do (New []) flaky))).
Defined.

Lemma Do_waits_counted_witness :
  0 <= retryMax (New []) /\
  Z.of_nat (length (waits (Do (New []) flaky).2)) <= retryMax (New []) /\
  (length (waits (Do (New []) flaky).2)
   <= attempts (Do (New []) flaky).2
   <= S (length (waits (Do (New []) flaky).2)))%nat.
Proof.
  assert (Hpos : 0 <= retryMax (New [])) by by_computation.
  split; [exact Hpos |].
  exact (Do_waits_counted (New []) flaky _ _ _ _ Hpos
           (run_eta (Do (New []) flaky))).
Defined.

Lemma Do_result_shape_witness :
  0 <= retryMax (New []) /\
  (((Do (New []) flaky).1.1.1 = None /\
    exists e, (Do (New []) flaky).1.1.2 = Some e) \/
   ((Do (New []) flaky).1.1.2 = None /\
    exists r,
      (Do (New []) flaky).1.1.1 =
        Some (mkResponse (StatusCode r)
                (Limited (mkLimited (maxResponseSize (New [])) (Body r)))) /\
      last (requests (Do (New []) flaky).2) = Some (inl r))).
Proof.
  assert (Hpos : 0 <= retryMax (New [])) by by_computation.
  split; [exact Hpos |].
  exact (Do_result_shape (New []) flaky _ _ _ _ Hpos
           (run_eta (Do (New []) flaky))).
Defined.

Lemma Do_closes_what_it_drops_witness :
  (length (closes (Do (New []) flaky).2)
   + (if (Do (New []) flaky).1.1.1 is Some _ then 1 else 0)
   = length (responses (Do (New []) flaky).2))%nat /\
  length (responses (Do (New []) flaky).2) = 2%nat.
Proof.
  split; [| reflexivity].
  exact (Do_closes_what_it_drops (New []) flaky _ _ _ _
           (run_eta (Do (New []) flaky))).
Defined.

Lemma Do_waits_within_bounds_witness :
  0 <= retryWaitMin client_1s_10s <= retryWaitMax client_1s_10s /\
  retryWaitMax client_1s_10s < 2 ^ 62 /\
  waits (Do client_1s_10s always_429).2 !! 4%nat = Some (10 * Second) /\
  retryWaitMin client_1s_10s <= 10 * Second <= retryWaitMax client_1s_10s.
Proof.
  assert (Hmin : 0 <= retryWaitMin client_1s_10s
                 <= retryWaitMax client_1s_10s) by by_computation.
  assert (Hmax : retryWaitMax client_1s_10s < 2 ^ 62) by by_computation.
  assert (Hk : waits (Do client_1s_10s always_429).2 !! 4%nat
               = Some (10 * Second)) by reflexivity.
  split; [exact Hmin |]. split; [exact Hmax |]. split; [exact Hk |].
  exact (Do_waits_within_bounds client_1s_10s always_429 _ _ _ _ Hmin Hmax
           (run_eta (Do client_1s_10s always_429)) 4%nat (10 * Second) Hk).
Defined.

Lemma Do_exponential_closed_form_witness :
  0 <= retryWaitMin client_1s_10s <= retryWaitMax client_1s_10s /\
  retryWaitMax client_1s_10s < 2 ^ 62 /\
  waits (Do client_1s_10s always_429).2 !! 3%nat = Some (8 * Second) /\
  8 * Second = Z.min (2 ^ Z.of_nat 3 * retryWaitMin client_1s_10s)
                     (retryWaitMax client_1s_10s).
Proof.
  assert (Hmin : 0 <= retryWaitMin client_1s_10s
                 <= retryWaitMax client_1s_10s) by by_computation.
  assert (Hmax : retryWaitMax client_1s_10s < 2 ^ 62) by by_computation.
  assert (Hk : waits (Do client_1s_10s always_429).2 !! 3%nat
               = Some (8 * Second)) by reflexivity.
  split; [exact Hmin |]. split; [exact Hmax |]. split; [exact Hk |].
  apply (Do_exponential_closed_form client_1s_10s always_429 _ _ _ _
           Hmin Hmax (run_eta (Do client_1s_10s always_429))
           3%nat (8 * Second)); [| exact Hk].
  intros j out Hj Hout.
  destruct j as [| [| [| j]]]; try lia;
    vm_compute in Hout; injection Hout as <-; reflexivity.
Defined.

Lemma Do_retryMax_zero_witness :
  retryMax (New [WithRetryMax 0]) = 0 /\
  exists out,
    (Do (New [WithRetryMax 0]) flaky).2 = [EvRequest 0 out] /\
    match out with
    | inl r =>
        (Do (New [WithRetryMax 0]) flaky).1.1.1
        = accept (New [WithRetryMax 0]) r /\
        (Do (New [WithRetryMax 0]) flaky).1.1.2 = None
    | inr e =>
        (Do (New [WithRetryMax 0]) flaky).1.1.1 = None /\
        (Do (New [WithRetryMax 0]) flaky).1.1.2 = Some e
    end.
Proof.
  split; [reflexivity |].
  exact (Do_retryMax_zero (New [WithRetryMax 0]) flaky _ _ _ _ eq_refl
           (run_eta (Do (New [WithRetryMax 0]) flaky))).
Defined.

Lemma Do_outcome_independent_of_backoff_witness :
  let c2 := New [WithBackoffStrategy 503 ExponentialBackoff;
                 WithRetryWaitMin (2 * Second)] in
  retryMax (New []) = retryMax c2 /\
  maxResponseSize (New []) = maxResponseSize c2 /\
  (Do (New []) flaky).1 = (Do c2 flaky).1 /\
  untimed (Do (New []) flaky).2 = untimed (Do c2 flaky).2 /\
  waits (Do (New []) flaky).2 <> waits (Do c2 flaky).2.
Proof.
  intros c2.
  assert (Hrm : retryMax (New []) = retryMax c2) by reflexivity.
  assert (Hms : maxResponseSize (New []) = maxResponseSize c2)
    by reflexivity.
  split; [exact Hrm |]. split; [exact Hms |].
  destruct (Do_outcome_independent_of_backoff (New []) c2 flaky Hrm Hms)
    as [Hout Hlog].
  - intros d d' w. reflexivity.
  - split; [exact Hout |]. split; [exact Hlog |].
    vm_compute. intro Hc. discriminate Hc.
Defined.

Lemma New_keeps_retriable_keys_witness :
  Forall package_option
         [WithBackoffStrategy 503 ExponentialBackoff; WithRetryMax 5;
          WithBackoffStrategy 500 ConstantBackoff] /\
  retriable_code 503 /\
  is_Some (backoffStrategy
             (New [WithBackoffStrategy 503 ExponentialBackoff;
                   WithRetryMax 5;
                   WithBackoffStrategy 500 ConstantBackoff]) !! 503).
Proof.
  assert (Hopts : Forall package_option
            [WithBackoffStrategy 503 ExponentialBackoff; WithRetryMax 5;
             WithBackoffStrategy 500 ConstantBackoff])
    by (repeat constructor).
  assert (Hcode : retriable_code 503) by (right; right; left; reflexivity).
  split; [exact Hopts |]. split; [exact Hcode |].
  exact (New_keeps_retriable_keys _ 503 Hopts Hcode).
Defined.

Lemma New_unmapped_code_never_retried_witness :
  let opts := [WithRetryMax 2; WithMaxResponseSize 64] in
  let w := mkScript [reply 503 4; reply 404 4; reply 200 4] [] in
  Forall package_option opts /\
  Do (New opts) w =
    (Some (mkResponse 404 (Limited (mkLimited 64 (zeros 4)))), None,
     mkScript [reply 200 4] [],
     [EvRequest 0 (inl (answer 503 4)); EvBodyClose 0; EvWait Second None]
       ++ EvRequest 1 (inl (answer 404 4)) :: []) /\
  backoffStrategy (New opts) !! 404 = None /\
  (forall post resp err,
      Do (New opts) w =
        (resp, err, mkScript [reply 200 4] [],
         [EvRequest 0 (inl (answer 503 4)); EvBodyClose 0;
          EvWait Second None]
           ++ EvRequest 1 (inl (answer 404 4)) :: post) ->
      post = [] /\ err = None).
Proof.
  intros opts w.
  assert (Hopts : Forall package_option opts) by (repeat constructor).
  assert (Hrun : Do (New opts) w =
    (Some (mkResponse 404 (Limited (mkLimited 64 (zeros 4)))), None,
     mkScript [reply 200 4] [],
     [EvRequest 0 (inl (answer 503 4)); EvBodyClose 0; EvWait Second None]
       ++ EvRequest 1 (inl (answer 404 4)) :: []))
    by (vm_compute; reflexivity).
  assert (Hnone : backoffStrategy (New opts) !! 404 = None) by reflexivity.
  split; [exact Hopts |]. split; [exact Hrun |]. split; [exact Hnone |].
  intros post resp err Hrun'.
  destruct (New_unmapped_code_never_retried opts w _ _ _ _ _ _ _
              Hopts Hrun' Hnone) as (Hpost & _ & Herr).
  split; assumption.
Defined.

Lemma Do_body_within_budget_witness :
  let c := New [WithMaxResponseSize 2] in
  let w := mkScript [reply 200 4] [] in
  0 <= retryMax c /\
  reads_within_buffer (B := memBody) /\
  Do c w = (Some (mkResponse 200 (Limited (mkLimited 2 (zeros 4)))), None,
            mkScript [] [], [EvRequest 0 (reply 200 4)]) /\
  exists l : limitedReadCloser memBody,
    Limited (mkLimited 2 (zeros 4)) = Limited l /\
    forall fuel len_p : nat,
      Z.of_nat (length (read_until_error fuel len_p l).1.1)
      <= Z.max 0 (maxResponseSize c).
Proof.
  intros c w.
  assert (Hpos : 0 <= retryMax c) by by_computation.
  assert (Hrun : Do c w =
            (Some (mkResponse 200 (Limited (mkLimited 2 (zeros 4)))), None,
             mkScript [] [], [EvRequest 0 (reply 200 4)]))
    by (vm_compute; reflexivity).
  split; [exact Hpos |].
  split; [exact memBody_reads_within_buffer |].
  split; [exact Hrun |].
  exact (Do_body_within_budget c w _ _ _ _ Hpos
           memBody_reads_within_buffer Hrun).
Defined.

Lemma LimitedReader_passes_small_body_witness :
  let c := New [WithMaxResponseSize 16] in
  Z.of_nat (length ten_bytes) < maxResponseSize c /\
  (read_until_error 11 4 (LimitedReader c (mkMemBody ten_bytes 3 None 0))).1
  = (ten_bytes, Some EOF) /\
  (read_until_error 11 4
     (LimitedReader c (mkMemBody ten_bytes 3 (Some reset) 0))).1
  = (ten_bytes, Some reset).
Proof.
  intros c.
  assert (HN : Z.of_nat (length ten_bytes) < maxResponseSize c)
    by reflexivity.
  split; [exact HN |]. split.
  - apply (LimitedReader_passes_small_body c ten_bytes 3 None 0 4 11 HN);
      simpl; lia.
  - apply (LimitedReader_passes_small_body c ten_bytes 3 (Some reset) 0 4 11
             HN); simpl; lia.
Defined.

Lemma LimitedReader_no_budget_witness :
  let c := New [WithMaxResponseSize 0] in
  maxResponseSize c <= 0 /\
  read_until_error 3 8 (LimitedReader c (zeros 4)) =
  ([], Some EOF, LimitedReader c (zeros 4)).
Proof.
  intros c.
  assert (HN : maxResponseSize c <= 0) by by_computation.
  split; [exact HN |].
  exact (LimitedReader_no_budget c (zeros 4) 8 2 HN).
Defined.

Lemma Do_refines_Httclient_witness :
  same_retry_settings (Httclient.New []) client_all_exponential /\
  all_exponential client_all_exponential /\
  Do client_all_exponential flaky =
  (bounded client_all_exponential <$> (Httclient.Do (Httclient.New []) flaky).1.1.1,
   (Httclient.Do (Httclient.New []) flaky).1.1.2,
   (Httclient.Do (Httclient.New []) flaky).1.2,
   (Httclient.Do (Httclient.New []) flaky).2).
Proof.
  assert (Hsame : same_retry_settings (Httclient.New [])
                                      client_all_exponential)
    by (repeat split; reflexivity).
  assert (Hexp : all_exponential client_all_exponential).
  { split; [reflexivity |].
    intros code [-> | [-> | [-> | ->]]]; reflexivity. }
  split; [exact Hsame |]. split; [exact Hexp |].
  exact (Do_refines_Httclient (Httclient.New []) client_all_exponential
           flaky _ _ _ _ Hsame Hexp
           (run_eta (Httclient.Do (Httclient.New []) flaky))).
Defined.

Lemma Httclient_Do_waits_double_witness :
  let c0 := Httclient.New [] in
  0 <= Httclient.retryWaitMin c0 <= Httclient.retryWaitMax c0 /\
  Httclient.retryWaitMax c0 < 2 ^ 62 /\
  waits (Httclient.Do c0 flaky).2 !! 1%nat = Some (2 * Second) /\
  2 * Second = Z.min (2 ^ Z.of_nat 1 * Httclient.retryWaitMin c0)
                     (Httclient.retryWaitMax c0).
Proof.
  intros c0.
  assert (Hmin : 0 <= Httclient.retryWaitMin c0
                 <= Httclient.retryWaitMax c0) by by_computation.
  assert (Hmax : Httclient.retryWaitMax c0 < 2 ^ 62) by by_computation.
  assert (Hk : waits (Httclient.Do c0 flaky).2 !! 1%nat
               = Some (2 * Second)) by reflexivity.
  split; [exact Hmin |]. split; [exact Hmax |]. split; [exact Hk |].
  exact (Httclient_Do_waits_double c0 flaky _ _ _ _ Hmin Hmax
           (run_eta (Httclient.Do c0 flaky)) 1%nat (2 * Second) Hk).
Defined.

Lemma V2_Do_transport_error_panics_witness :
  0 < retryMax (New []) /\
  V2.http_Do (mkScript2 [] []) = (None, Some refused, mkScript2 [] []) /\
  V2.Do (New []) (mkScript2 [] []) =
  (V2.Panic, mkScript2 [] [], [V2.EvRequest None (Some refused)]).
Proof.
  assert (Hpos : 0 < retryMax (New [])) by reflexivity.
  assert (Hdo : V2.http_Do (mkScript2 [] [])
                = (None, Some refused, mkScript2 [] [])) by reflexivity.
  split; [exact Hpos |]. split; [exact Hdo |].
  exact (V2_Do_transport_error_panics (New []) (mkScript2 [] [])
           (mkScript2 [] []) (Some refused) Hpos Hdo).
Defined.

Lemma V2_Do_without_retries_witness :
  let c := New [WithRetryMax 0] in
  retryMax c <= 0 /\
  V2.http_Do answers_200_404 =
    (Some (answer 200 4), None,
     mkScript2 [(Some (answer 404 4), None)] []) /\
  V2.Do c answers_200_404 =
    (V2.Returned (Some (answer 200 4)) None,
     mkScript2 [(Some (answer 404 4), None)] [],
     [V2.EvRequest (Some (answer 200 4)) None]).
Proof.
  intros c.
  assert (Hle : retryMax c <= 0) by by_computation.
  assert (Hdo : V2.http_Do answers_200_404 =
            (Some (answer 200 4), None,
             mkScript2 [(Some (answer 404 4), None)] [])) by reflexivity.
  split; [exact Hle |]. split; [exact Hdo |].
  exact (V2_Do_without_retries c answers_200_404 _ _ _ Hle Hdo).
Defined.

Lemma V2_Do_unmapped_sent_twice_witness :
  0 < retryMax (New []) /\
  backoffStrategy (New []) !! 200 = None /\
  V2.Do (New []) answers_200_404 =
    (V2.Returned (Some (answer 404 4)) None, mkScript2 [] [],
     [V2.EvRequest (Some (answer 200 4)) None;
      V2.EvRequest (Some (answer 404 4)) None]).
Proof.
  assert (Hpos : 0 < retryMax (New [])) by reflexivity.
  assert (Hnone : backoffStrategy (New []) !! 200 = None) by reflexivity.
  split; [exact Hpos |]. split; [exact Hnone |].
  apply (V2_Do_unmapped_sent_twice (New []) answers_200_404
           (mkScript2 [(Some (answer 404 4), None)] [])
           (mkScript2 [] []) (answer 200 4) (Some (answer 404 4)) None
           Hpos); reflexivity.
Defined.

Lemma V2_Do_mapped_retried_without_wait_witness :
  0 <= retryMax (New []) /\
  Z.of_nat (length (V2.Do (New []) answers_503s).2)
  = retryMax (New []) + 1 /\
  exists r, (V2.Do (New []) answers_503s).1.1
            = V2.Returned (Some r) None.
Proof.
  assert (Hpos : 0 <= retryMax (New [])) by by_computation.
  split; [exact Hpos |].
  destruct (V2_Do_mapped_retried_without_wait (New []) answers_503s
              (V2.Do (New []) answers_503s).1.1
              (V2.Do (New []) answers_503s).1.2
              (V2.Do (New []) answers_503s).2 Hpos)
    as (Hlen & _ & r & Hout & _).
  - reflexivity.
  - intros resp err Hin. apply list_elem_of_In in Hin. vm_compute in Hin.
    repeat (destruct Hin as [Hin | Hin];
            [injection Hin as <- <-;
             split; [reflexivity |];
             exists (answer 503 4); split; [reflexivity |];
             eexists; reflexivity |]).
    destruct Hin.
  - split; [exact Hlen |]. exists r. exact Hout.
Defined.

(** * The doubling at the edge of [int64] *)

(** Under [ExponentialBackoff] a current wait of [2^62] nanoseconds or
    more doubles past [int64]: the product wraps to the negative
    [2 * wait - 2^64], which is not above a non-negative [retryWaitMax],
    so the next wait is that negative duration instead of the cap. *)
Theorem getNextWait_overflow (c : Client) (key d : Z) :
  backoffStrategy c !! key = Some ExponentialBackoff ->
  2 ^ 62 <= d < 2 ^ 63 ->
  0 <= retryWaitMax c ->
  getNextWait c key d = d * 2 - 2 ^ 64 /\ getNextWait c key d < 0.
Proof.
  intros Hkey Hd Hmax. unfold getNextWait. rewrite Hkey. simpl.
  assert (Hwrap : wrap64 (d * 2) = d * 2 - 2 ^ 64).
  { unfold wrap64.
    replace (d * 2 + 2 ^ 63) with ((d * 2 - 2 ^ 63) + 1 * 2 ^ 64) by lia.
    rewrite Z.mod_add by lia. rewrite Z.mod_small by lia. lia. }
  rewrite Hwrap.
  destruct (d * 2 - 2 ^ 64 >? retryWaitMax c) eqn:Hcmp.
  - rewrite Z.gtb_ltb in Hcmp. apply Z.ltb_lt in Hcmp. lia.
  - split; [reflexivity | lia].
Qed.

Lemma getNextWait_overflow_witness :
  let c := New [WithRetryWaitMin (2 ^ 62); WithRetryWaitMax (2 ^ 62)] in
  backoffStrategy c !! 429 = Some ExponentialBackoff /\
  2 ^ 62 <= 2 ^ 62 < 2 ^ 63 /\
  0 <= retryWaitMax c /\
  getNextWait c 429 (2 ^ 62) = 2 ^ 62 * 2 - 2 ^ 64 /\
  getNextWait c 429 (2 ^ 62) < 0.
Proof.
  intros c.
  assert (Hkey : backoffStrategy c !! 429 = Some ExponentialBackoff)
    by reflexivity.
  assert (Hd : 2 ^ 62 <= 2 ^ 62 < 2 ^ 63) by by_computation.
  assert (Hmax : 0 <= retryWaitMax c) by by_computation.
  split; [exact Hkey |]. split; [exact Hd |]. split; [exact Hmax |].
  exact (getNextWait_overflow c 429 (2 ^ 62) Hkey Hd Hmax).
Defined.
